(** * go-hms-push: the resilient HTTP client core

    A shallow embedding of the two [httpclient] packages of the repository
    ([src/httpclient/httpclient.go] and the one stored in
    [src/push/config/config.go]) and of [Config.ToHTTPClientConfig], followed
    by the properties of client construction, request building and the retry
    loop.

    Go values are rendered as follows: [int] and [time.Duration] are [Z], a
    [[]byte] that may be [nil] is an [option (list byte)], a pointer that may
    be [nil] is an [option], an [error] that may be [nil] is an
    [option error] and a function returning [(v, err)] with exactly one of
    them set returns a sum.  The
    standard library calls the code makes ([ioutil.ReadFile],
    [x509.SystemCertPool], PEM decoding, [url.Parse], [http.Client.Do],
    [ioutil.ReadAll]) are read from an environment record [Env]; the effects
    of one call of [DoHttpRequest] are threaded through a small state monad. *)

From Stdlib Require Import ZArith String List Ascii Strings.Byte.
From stdpp Require Import base option list gmap strings pretty.

Local Open Scope string_scope.
Local Open Scope list_scope.

(** ** Go basics *)

Definition bytes := list byte.
Definition error := string.
Definition Duration := Z.

Definition errors_New (text : string) : error := text.

(** [strings.ToLower], on the ASCII range (the only letters that can lower to
    the letters of ["https"]). *)
Definition lower_ascii (a : ascii) : ascii :=
  let n := nat_of_ascii a in
  if (65 <=? n)%nat && (n <=? 90)%nat then ascii_of_nat (n + 32) else a.

Fixpoint strings_ToLower (s : string) : string :=
  match s with
  | EmptyString => EmptyString
  | String a s' => String (lower_ascii a) (strings_ToLower s')
  end.

(** ** The parts of [net/url], [crypto/x509] and [net/http] the code touches *)

Module url.
Record URL := { Scheme : string; Host : string; Path : string }.
End url.

Module x509.
  (** A certificate pool is the list of the certificates added to it; the
      decoder of PEM blocks comes from the environment. *)
Definition Certificate := bytes.
Definition CertPool := list Certificate.

Definition NewCertPool : CertPool := [].

  (** [AppendCertsFromPEM] adds every certificate found in the PEM data and
      reports whether at least one was found. *)
Definition AppendCertsFromPEM (decode : bytes -> list Certificate)
      (pool : CertPool) (pemCerts : bytes) : CertPool * bool :=
    let found := decode pemCerts in
    (pool ++ found, match found with [] => false | _ :: _ => true end).
End x509.

Module tls.
Record Config := { RootCAs : option x509.CertPool }.
End tls.

Module http.
Abbreviation Header := (gmap string (list string)).

Section header.
    (** [textproto.CanonicalMIMEHeaderKey] *)
Variable canonical : string -> string.

Definition Set_ (h : Header) (key value : string) : Header :=
      <[canonical key := [value]]> h.

Definition Get (h : Header) (key : string) : string :=
      match h !! canonical key with
      | Some (v :: _) => v
      | _ => ""
      end.
End header.

Record Request := {
    reqMethod : string;
    reqURL : url.URL;
    reqHeader : Header;
    reqBody : option bytes
  }.

Definition setReqHeader (h : Header) (r : Request) : Request :=
    {| reqMethod := reqMethod r; reqURL := reqURL r;
       reqHeader := h; reqBody := reqBody r |}.

Record Transport := {
    Proxy : option url.URL;
    MaxIdleConns : Z;
    IdleConnTimeout : Duration;
    DisableCompression : bool;
    TLSClientConfig : tls.Config
  }.

Record Client := { Transport_ : Transport }.

  (** What [Client.Do] followed by [ioutil.ReadAll(resp.Body)] can yield:
      no response at all, or a response envelope whose body stream gives
      some bytes and possibly a read error. *)
Inductive RoundTrip :=
  | DoErr (e : error)
  | DoResp (StatusCode : Z) (header : Header) (read : bytes) (readErr : option error).
End http.

Definition Second : Duration := 1000000000%Z.

(** ** The environment of the program *)

Record Env := {
  (** [ioutil.ReadFile] *)
  ReadFile : string -> bytes + error;
  (** [x509.SystemCertPool]; [None] when the system pool is unavailable *)
  SystemCertPool : option x509.CertPool;
  (** the certificates that decode from PEM data *)
  decodePEM : bytes -> list x509.Certificate;
  (** the method check of [http.NewRequest] *)
  validMethod : string -> bool;
  (** [url.Parse] and [url.ParseRequestURI] *)
  url_Parse : string -> url.URL + error;
  url_ParseRequestURI : string -> url.URL + error;
  (** [textproto.CanonicalMIMEHeaderKey] *)
  CanonicalMIMEHeaderKey : string -> string;
  (** the outcome of the [n]-th attempt's [Client.Do] and body read *)
  Do : http.Client -> nat -> http.Request -> http.RoundTrip
}.

(** [http.NewRequest]: an empty method means GET, the method and the URL are
    checked, and the request starts with an empty header map. *)
Definition http_NewRequest (env : Env) (method urlStr : string)
    (body : option bytes) : http.Request + error :=
  let method := if bool_decide (method = "") then "GET" else method in
  if negb (validMethod env method) then
    inr (String.append "net/http: invalid method " method)
  else
    match url_Parse env urlStr with
    | inr e => inr e
    | inl u =>
        inl {| http.reqMethod := method; http.reqURL := u;
               http.reqHeader := ∅; http.reqBody := body |}
    end.

(** ** Data of package [httpclient]

    [PushRequest], [PushResponse], [HTTPRetryConfig], [HTTPClient],
    [HTTPOption], [SetHeader], [buildHTTPRequest] and [pendingForRetry] have
    the same text in both files and are embedded once.  A Go function that
    returns either a value or an error is rendered with a sum. *)

(** [type HTTPOption func(r *http.Request)]: an option updates the wire
    request it is handed. *)
Definition HTTPOption := http.Request -> http.Request.

Module PushRequest.
Record t := {
    Method : string;
    URL : string;
    Body : option bytes;
    Header : list HTTPOption
  }.
End PushRequest.

Module PushResponse.
Record t := {
    Status : Z;
    Header : http.Header;
    Body : bytes
  }.
End PushResponse.

Record HTTPRetryConfig := {
  MaxRetryTimes : Z;
  RetryInterval : Duration
}.

(** [HTTPClient.RetryConfig] is a pointer that [NewHTTPClient] always sets;
    the embedding keeps the configuration it points to. *)
Module HTTPClient.
Record t := {
    Client : http.Client;
    RetryConfig : HTTPRetryConfig
  }.
End HTTPClient.

(** Package [trace]: a hook is a callback of the caller; calling it leaves the
    note it computes from its argument in the event log. *)
Module trace.
Record HmsTrace := {
    GotRequestBody : option (option bytes -> string);
    GotResponseBody : option (bytes -> string);
    GotResponseStatus : option (Z -> string)
  }.

  (** the zero value [var tr trace.HmsTrace] *)
Definition zero : HmsTrace :=
    {| GotRequestBody := None; GotResponseBody := None; GotResponseStatus := None |}.
End trace.

(** [context.Context]: [Done w] tells whether, in the [w]-th [select] of the
    call, the receive from [ctx.Done()] is the case that fires (the context
    was cancelled before the timer expired); [Value] is the value stored
    under [trace.HmsTraceKey]. *)
Module context.
Record Context := {
    Done : nat -> bool;
    Value : option trace.HmsTrace
  }.
End context.

(** ** State of one call *)

Inductive Event :=
| EvDo (attempt : nat) (request : http.Request)
| EvReadAll (attempt : nat)
| EvClose (attempt : nat)
| EvHook (note : string)
| EvTimer (wait : nat) (d : Duration)
| EvDone (wait : nat).

(** [heap_req] is the [PushRequest] the argument [req] points to; [attempts]
    counts the calls of [doHttpRequest], [waits] the [select]s entered;
    [events] is the log, oldest first. *)
Record State := {
  heap_req : PushRequest.t;
  attempts : nat;
  waits : nat;
  events : list Event
}.

Definition M (A : Type) : Type := State -> A * State.

Definition ret {A} (a : A) : M A := fun s => (a, s).

Definition bind {A B} (m : M A) (k : A -> M B) : M B :=
  fun s => let (a, s') := m s in k a s'.

Notation "x <- m ;; k" := (bind m (fun x => k))
  (at level 20, m at level 99, k at level 200, only parsing).
Notation "m ;; k" := (bind m (fun _ => k))
  (at level 100, k at level 200, only parsing, right associativity).

Definition load_req : M PushRequest.t := fun s => (heap_req s, s).

Definition emit (e : Event) : M unit := fun s =>
  (tt, {| heap_req := heap_req s; attempts := attempts s;
          waits := waits s; events := events s ++ [e] |}).

Definition next_attempt : M nat := fun s =>
  (attempts s, {| heap_req := heap_req s; attempts := S (attempts s);
                  waits := waits s; events := events s |}).

Definition next_wait : M nat := fun s =>
  (waits s, {| heap_req := heap_req s; attempts := attempts s;
               waits := S (waits s); events := events s |}).

(** A state in which the next attempt on request [r] is the [n]-th one. *)
Definition at_attempt (r : PushRequest.t) (n : nat) : State :=
  {| heap_req := r; attempts := n; waits := 0; events := [] |}.

Definition call_hook {A} (hook : option (A -> string)) (a : A) : M unit :=
  match hook with
  | Some f => emit (EvHook (f a))
  | None => ret tt
  end.

(** ** Functions shared by the two files *)

Section shared.
Variable env : Env.

Definition SetHeader (key value : string) : HTTPOption := fun r =>
    http.setReqHeader
      (http.Set_ (CanonicalMIMEHeaderKey env) (http.reqHeader r) key value) r.

Definition buildHTTPRequest (r : PushRequest.t) : http.Request + error :=
    let body := PushRequest.Body r in
    match http_NewRequest env (PushRequest.Method r) (PushRequest.URL r) body with
    | inr err => inr err
    | inl req => inl (fold_left (fun req opt => opt req) (PushRequest.Header r) req)
    end.

Definition pendingForRetry (c : HTTPClient.t) (ctx : context.Context) : M bool :=
    let interval := RetryInterval (HTTPClient.RetryConfig c) in
    if (0 <? interval)%Z then
      w <- next_wait ;;
      if context.Done ctx w then
        emit (EvDone w) ;; ret false
      else
        emit (EvTimer w interval) ;; ret true
    else ret false.

  (** The loop of [DoHttpRequest], over the attempt function it calls
      ([c.doHttpRequest(req)] in one file, [c.doHttpRequest(ctx, req)] in the
      other).  [fuel] bounds the iterations; [DoHttpRequest] starts it with
      [MaxRetryTimes], which the counter can never exceed. *)
Fixpoint DoHttpRequest_for (attempt : M (PushResponse.t + error))
      (c : HTTPClient.t) (ctx : context.Context) (fuel : nat) (retryTimes : Z)
      (result : option PushResponse.t) (err : option error)
      : M (option PushResponse.t * option error) :=
    match fuel with
    | O => ret (result, err)
    | S fuel' =>
        if (retryTimes <? MaxRetryTimes (HTTPClient.RetryConfig c))%Z then
          r <- attempt ;;
          match r with
          | inl response => ret (Some response, None)
          | inr e =>
              again <- pendingForRetry c ctx ;;
              if again then
                DoHttpRequest_for attempt c ctx fuel' (retryTimes + 1) None (Some e)
              else ret (None, Some e)
          end
        else ret (result, err)
    end.

Definition default_RetryConfig : HTTPRetryConfig :=
    {| MaxRetryTimes := 1%Z; RetryInterval := 0%Z |}.

Definition base_Transport : http.Transport :=
    {| http.Proxy := None;
       http.MaxIdleConns := 10%Z;
       http.IdleConnTimeout := (30 * Second)%Z;
       http.DisableCompression := true;
       http.TLSClientConfig := {| tls.RootCAs := None |} |}.

Definition set_RootCAs (pool : x509.CertPool) (tr : http.Transport) : http.Transport :=
    {| http.Proxy := http.Proxy tr;
       http.MaxIdleConns := http.MaxIdleConns tr;
       http.IdleConnTimeout := http.IdleConnTimeout tr;
       http.DisableCompression := http.DisableCompression tr;
       http.TLSClientConfig := {| tls.RootCAs := Some pool |} |}.

Definition set_Proxy (u : url.URL) (tr : http.Transport) : http.Transport :=
    {| http.Proxy := Some u;
       http.MaxIdleConns := http.MaxIdleConns tr;
       http.IdleConnTimeout := http.IdleConnTimeout tr;
       http.DisableCompression := http.DisableCompression tr;
       http.TLSClientConfig := http.TLSClientConfig tr |}.
End shared.

(** ** [src/httpclient/httpclient.go]: the proxy CA is read only for an
    [https] proxy, and the retry configuration is adopted as given *)

Module Lenient.
Record HTTPProxyConfig := {
    ProxyUrl : option url.URL;
    ProxyCACertPath : string
  }.

Record HTTPClientConfig := {
    ProxyConfig : option HTTPProxyConfig;
    RetryConfig : option HTTPRetryConfig
  }.

Section with_env.
Variable env : Env.

    (** The first [if] of [NewHTTPClient]: the transport it leaves, or the
        error it returns. *)
Definition proxy_Transport (config : option HTTPClientConfig)
        : http.Transport + error :=
      let tr := base_Transport in
      match config with
      | Some {| ProxyConfig := Some {| ProxyUrl := Some proxyURL;
                                       ProxyCACertPath := caPath |} |} =>
          if bool_decide (strings_ToLower (url.Scheme proxyURL) = "https")
             && (0 <? String.length caPath)%nat
          then
            match ReadFile env caPath with
            | inr err => inr err
            | inl bytes =>
                let rootCAs :=
                  match SystemCertPool env with
                  | Some pool => pool
                  | None => x509.NewCertPool
                  end in
                let (rootCAs, ok) :=
                  x509.AppendCertsFromPEM (decodePEM env) rootCAs bytes in
                if negb ok then
                  inr (errors_New "failed to parse proxy server CA certificate")
                else inl (set_Proxy proxyURL (set_RootCAs rootCAs tr))
            end
          else inl (set_Proxy proxyURL tr)
      | _ => inl tr
      end.

Definition NewHTTPClient (config : option HTTPClientConfig)
        : HTTPClient.t + error :=
      match proxy_Transport config with
      | inr err => inr err
      | inl tr =>
          let client := {| http.Transport_ := tr |} in
          match config with
          | Some {| RetryConfig := Some retryConfig |} =>
              inl {| HTTPClient.Client := client;
                     HTTPClient.RetryConfig := retryConfig |}
          | _ =>
              inl {| HTTPClient.Client := client;
                     HTTPClient.RetryConfig := default_RetryConfig |}
          end
      end.

Definition doHttpRequest (c : HTTPClient.t) : M (PushResponse.t + error) :=
      n <- next_attempt ;;
      req <- load_req ;;
      match buildHTTPRequest env req with
      | inr err => ret (inr err)
      | inl request =>
          emit (EvDo n request) ;;
          match Do env (HTTPClient.Client c) n request with
          | http.DoErr err => ret (inr err)
          | http.DoResp StatusCode header body readErr =>
              emit (EvReadAll n) ;;
              emit (EvClose n) ;;
              match readErr with
              | Some err => ret (inr err)
              | None =>
                  ret (inl {| PushResponse.Status := StatusCode;
                              PushResponse.Header := header;
                              PushResponse.Body := body |})
              end
          end
      end.

    (** What the [n]-th attempt on request [r] returns. *)
Definition attempt_result (c : HTTPClient.t) (r : PushRequest.t) (n : nat)
        : PushResponse.t + error :=
      (doHttpRequest c (at_attempt r n)).1.

Definition DoHttpRequest (c : HTTPClient.t) (ctx : context.Context)
        : M (option PushResponse.t * option error) :=
      DoHttpRequest_for (doHttpRequest c) c ctx
        (Z.to_nat (MaxRetryTimes (HTTPClient.RetryConfig c))) 0 None None.
End with_env.
End Lenient.

(** ** [Config.ToHTTPClientConfig] of [src/push/config/config.go], the caller
    of the package above *)

Module config.
Record Config := {
    AppId : string;
    AppSecret : string;
    AuthUrl : string;
    PushUrl : string;
    HttpProxyUrl : string;
    ProxyCACertPath : string;
    MaxRetryTimes : Z;
    RetryInterval : Duration
  }.

Definition ToHTTPClientConfig (env : Env) (c : Config)
      : Lenient.HTTPClientConfig + error :=
    if (MaxRetryTimes c <? 1)%Z then
      inr (String.append "MaxRetryTimes value is invalid: " (pretty (MaxRetryTimes c)))
    else
      let retry := Build_HTTPRetryConfig (MaxRetryTimes c) (RetryInterval c) in
      if (0 <? String.length (HttpProxyUrl c))%nat then
        match url_ParseRequestURI env (HttpProxyUrl c) with
        | inr err => inr (String.append "HttpProxyUrl value is invalid: " err)
        | inl proxyURL =>
            inl {| Lenient.ProxyConfig :=
                     Some {| Lenient.ProxyUrl := Some proxyURL;
                             Lenient.ProxyCACertPath := ProxyCACertPath c |};
                   Lenient.RetryConfig := Some retry |}
        end
      else
        inl {| Lenient.ProxyConfig := None; Lenient.RetryConfig := Some retry |}.
End config.

(** Modelled from the spec: the declaration of the [config.Config] that the
    package below imports ([.../push/config]) is not among the sources; the
    record has the four fields [NewHTTPClientConfig] reads, with the types
    it reads them at. *)
Module pushconfig.
Record Config := {
  ProxyUrl : string;
  TrustedCA : string;
  MaxRetryTimes : Z;
  RetryInterval : Duration
}.
End pushconfig.

(** ** The [httpclient] package stored in [src/push/config/config.go]: the
    trusted CA is read whenever one is configured, the retry bounds are
    checked, and each attempt reports to the trace hooks of the context *)

Module Strict.
Record HTTPTransportConfig := {
    ProxyUrl : option url.URL;
    TrustedCA : string
  }.

Record HTTPClientConfig := {
    TransportConfig : option HTTPTransportConfig;
    RetryConfig : option HTTPRetryConfig
  }.

Section with_env.
Variable env : Env.

Definition NewHTTPClientConfig (c : option pushconfig.Config)
    : HTTPClientConfig + error :=
  match c with
  | None => inr (errors_New "config is nil")
  | Some c =>
      let retry :=
        Build_HTTPRetryConfig (pushconfig.MaxRetryTimes c)
          (pushconfig.RetryInterval c) in
      if (0 <? String.length (pushconfig.ProxyUrl c))%nat then
        match url_ParseRequestURI env (pushconfig.ProxyUrl c) with
        | inr err => inr (String.append "parse proxy url error: " err)
        | inl proxyURL =>
            inl {| TransportConfig :=
                     Some {| ProxyUrl := Some proxyURL;
                             TrustedCA := pushconfig.TrustedCA c |};
                   RetryConfig := Some retry |}
        end
      else inl {| TransportConfig := None; RetryConfig := Some retry |}
  end.

    (** The retry part of [NewHTTPClient]: the value of [retryConfig] after
        it, or the error returned. *)
Definition checked_RetryConfig (config : HTTPClientConfig)
        : option HTTPRetryConfig + error :=
      match RetryConfig config with
      | Some rc =>
          if (MaxRetryTimes rc <? 1)%Z || (5 <? MaxRetryTimes rc)%Z then
            inr (errors_New
              "maximum retry times value cannot be less than 1 and more than 5")
          else inl (Some rc)
      | None => inl None
      end.

    (** The transport part of [NewHTTPClient]. *)
Definition trusted_Transport (config : HTTPClientConfig)
        : http.Transport + error :=
      let tr := base_Transport in
      match TransportConfig config with
      | Some tc =>
          let tr :=
            match ProxyUrl tc with
            | Some u => set_Proxy u tr
            | None => tr
            end in
          let trustedCaPem := TrustedCA tc in
          if negb (bool_decide (trustedCaPem = "")) then
            match ReadFile env trustedCaPem with
            | inr err => inr err
            | inl bytes =>
                let rootCAs :=
                  match SystemCertPool env with
                  | Some pool => pool
                  | None => x509.NewCertPool
                  end in
                let (rootCAs, ok) :=
                  x509.AppendCertsFromPEM (decodePEM env) rootCAs bytes in
                if negb ok then
                  inr (errors_New "failed to parse trusted CA certificate")
                else inl (set_RootCAs rootCAs tr)
            end
          else inl tr
      | None => inl tr
      end.

Definition NewHTTPClient (config : option HTTPClientConfig)
        : HTTPClient.t + error :=
      match config with
      | Some config =>
          match checked_RetryConfig config with
          | inr err => inr err
          | inl retryConfig =>
              match trusted_Transport config with
              | inr err => inr err
              | inl tr =>
                  inl {| HTTPClient.Client := {| http.Transport_ := tr |};
                         HTTPClient.RetryConfig :=
                           match retryConfig with
                           | Some rc => rc
                           | None => default_RetryConfig
                           end |}
              end
          end
      | None =>
          inl {| HTTPClient.Client := {| http.Transport_ := base_Transport |};
                 HTTPClient.RetryConfig := default_RetryConfig |}
      end.

(** The request is sent as [request.WithContext(ctx)]: what the transport
    does with it under the call's context, a cancelled one included, is part
    of what [Do] answers; a statement about this file reads [Do] as the
    transport under the context of the call. *)
Definition doHttpRequest (c : HTTPClient.t) (ctx : context.Context)
        : M (PushResponse.t + error) :=
      n <- next_attempt ;;
      req <- load_req ;;
      match buildHTTPRequest env req with
      | inr err => ret (inr err)
      | inl request =>
          let tr :=
            match context.Value ctx with
            | Some t => t
            | None => trace.zero
            end in
          call_hook (trace.GotRequestBody tr) (PushRequest.Body req) ;;
          emit (EvDo n request) ;;
          match Do env (HTTPClient.Client c) n request with
          | http.DoErr err => ret (inr err)
          | http.DoResp StatusCode header body readErr =>
              call_hook (trace.GotResponseStatus tr) StatusCode ;;
              emit (EvReadAll n) ;;
              match readErr with
              | Some err => emit (EvClose n) ;; ret (inr err)
              | None =>
                  call_hook (trace.GotResponseBody tr) body ;;
                  emit (EvClose n) ;;
                  ret (inl {| PushResponse.Status := StatusCode;
                              PushResponse.Header := header;
                              PushResponse.Body := body |})
              end
          end
      end.

    (** What the [n]-th attempt on request [r] returns. *)
Definition attempt_result (c : HTTPClient.t) (ctx : context.Context)
        (r : PushRequest.t) (n : nat) : PushResponse.t + error :=
      (doHttpRequest c ctx (at_attempt r n)).1.

Definition DoHttpRequest (c : HTTPClient.t) (ctx : context.Context)
        : M (option PushResponse.t * option error) :=
      DoHttpRequest_for (doHttpRequest c ctx) c ctx
        (Z.to_nat (MaxRetryTimes (HTTPClient.RetryConfig c))) 0 None None.
End with_env.
End Strict.

(** The values of the variables [result, err] of [DoHttpRequest] after the
    assignment [result, err = c.doHttpRequest(...)]. *)
Definition assigned (r : PushResponse.t + error)
    : option PushResponse.t * option error :=
  match r with
  | inl response => (Some response, None)
  | inr e => (None, Some e)
  end.

Definition failed (r : PushResponse.t + error) : Prop :=
  match r with
  | inl _ => False
  | inr _ => True
  end.

(** What the loop needs to know of the attempt function: its value is a
    function of the request and of the attempt number, and it only advances
    the attempt counter. *)
Record attempt_like (attempt : M (PushResponse.t + error))
    (result_of : PushRequest.t -> nat -> PushResponse.t + error) : Prop := {
  attempt_value : forall s, (attempt s).1 = result_of (heap_req s) (attempts s);
  attempt_heap : forall s, heap_req (attempt s).2 = heap_req s;
  attempt_count : forall s, attempts (attempt s).2 = S (attempts s);
  attempt_waits : forall s, waits (attempt s).2 = waits s
}.

(** The state [s] is reachable from [s0] inside one call: the request in the
    heap is the one of [s0], every wire request handed to [Client.Do] since
    [s0] is the one [buildHTTPRequest] makes of it, and every attempt since
    [s0] whose request builds has handed it over. *)
Definition rebuilt_since (env : Env) (s0 s : State) : Prop :=
  heap_req s = heap_req s0
  /\ attempts s0 <= attempts s
  /\ exists new,
      events s = events s0 ++ new
      /\ (forall n q, EvDo n q ∈ new ->
            attempts s0 <= n < attempts s
            /\ buildHTTPRequest env (heap_req s0) = inl q)
      /\ (forall n q, attempts s0 <= n < attempts s ->
            buildHTTPRequest env (heap_req s0) = inl q -> EvDo n q ∈ new).

(** The same environment with every status code of a response envelope
    replaced by its image under [f]. *)
Definition with_status (f : Z -> Z) (rt : http.RoundTrip) : http.RoundTrip :=
  match rt with
  | http.DoErr e => http.DoErr e
  | http.DoResp status header body readErr =>
      http.DoResp (f status) header body readErr
  end.

Definition restatus (f : Z -> Z) (env : Env) : Env :=
  {| ReadFile := ReadFile env;
     SystemCertPool := SystemCertPool env;
     decodePEM := decodePEM env;
     validMethod := validMethod env;
     url_Parse := url_Parse env;
     url_ParseRequestURI := url_ParseRequestURI env;
     CanonicalMIMEHeaderKey := CanonicalMIMEHeaderKey env;
     Do := fun client n request => with_status f (Do env client n request) |}.

Definition response_with_status (f : Z -> Z) (r : PushResponse.t + error)
    : PushResponse.t + error :=
  match r with
  | inl response =>
      inl {| PushResponse.Status := f (PushResponse.Status response);
             PushResponse.Header := PushResponse.Header response;
             PushResponse.Body := PushResponse.Body response |}
  | inr e => inr e
  end.

(** ** Fixtures: a small environment, requests and clients *)

Module Fixture.
Definition garbage : bytes := [x6e; x6f; x70; x65].
Definition pem : bytes := [x2d; x2d; x2d; x2d; x2d].

  (** Two files exist: ["ca.pem"] holds one certificate, ["junk.pem"] holds
      none; the transport outcome of each attempt is given by [script]. *)
Definition env (script : nat -> http.RoundTrip) : Env :=
    {| ReadFile := fun path =>
         if bool_decide (path = "ca.pem") then inl pem
         else if bool_decide (path = "junk.pem") then inl garbage
         else inr "open: no such file or directory";
       SystemCertPool := None;
       decodePEM := fun data =>
         match data with
         | x2d :: _ => [data]
         | _ => []
         end;
       validMethod := fun m => negb (bool_decide (m = "BAD METHOD"));
       url_Parse := fun u =>
         inl {| url.Scheme := "https"; url.Host := u; url.Path := "" |};
       url_ParseRequestURI := fun u =>
         inl {| url.Scheme := "https"; url.Host := u; url.Path := "" |};
       CanonicalMIMEHeaderKey := fun k => k;
       Do := fun _ n _ => script n |}.

Definition refused : http.RoundTrip := http.DoErr "connection refused".
Definition served (status : Z) : http.RoundTrip :=
    http.DoResp status ∅ [x6f; x6b] None.

Definition always_refused : nat -> http.RoundTrip := fun _ => refused.

  (** attempts are numbered from 0: the first [n] are refused, the next one
      is served with [status] *)
Definition served_at (n : nat) (status : Z) : nat -> http.RoundTrip :=
    fun i => if (i <? n)%nat then http.DoErr (pretty i) else served status.

Definition numbered_refusals : nat -> http.RoundTrip :=
    fun i => http.DoErr (pretty i).

Definition request (e : Env) : PushRequest.t :=
    {| PushRequest.Method := "POST";
       PushRequest.URL := "push-api.cloud.huawei.com";
       PushRequest.Body := Some [x7b; x7d];
       PushRequest.Header := [SetHeader e "X" "1"; SetHeader e "X" "2"] |}.

Definition client (maxRetryTimes : Z) (retryInterval : Duration) : HTTPClient.t :=
    {| HTTPClient.Client := {| http.Transport_ := base_Transport |};
       HTTPClient.RetryConfig :=
         {| MaxRetryTimes := maxRetryTimes; RetryInterval := retryInterval |} |}.

Definition never_cancelled : context.Context :=
    {| context.Done := fun _ => false; context.Value := None |}.

  (** cancelled during the [w]-th wait of the call *)
Definition cancelled_in_wait (w : nat) : context.Context :=
    {| context.Done := fun i => bool_decide (i = w); context.Value := None |}.

Definition start (e : Env) : State := at_attempt (request e) 0.
End Fixture.

(** ** Views of the event log *)

(** The events a call of a hook leaves. *)
Definition hook_events {A} (hook : option (A -> string)) (a : A) : list Event :=
  match hook with
  | Some f => [EvHook (f a)]
  | None => []
  end.

Definition is_wait (e : Event) : bool :=
  match e with
  | EvTimer _ _ | EvDone _ => true
  | _ => false
  end.

(** How often the body of attempt [n] is read, and closed, in a log. *)
Definition is_read (n : nat) (e : Event) : bool :=
  match e with
  | EvReadAll m => Nat.eqb m n
  | _ => false
  end.

Definition is_close (n : nat) (e : Event) : bool :=
  match e with
  | EvClose m => Nat.eqb m n
  | _ => false
  end.

Definition reads_of (n : nat) (l : list Event) : nat :=
  length (List.filter (is_read n) l).

Definition closes_of (n : nat) (l : list Event) : nat :=
  length (List.filter (is_close n) l).

(** The hooks [doHttpRequest] finds in its context. *)
Definition trace_of (ctx : context.Context) : trace.HmsTrace :=
  match context.Value ctx with
  | Some t => t
  | None => trace.zero
  end.

(** The events of the transport part of an attempt: the send, then for a
    response envelope the body read and the close, with the hooks [tr]
    around them. *)
Definition exchange_events (env : Env) (c : HTTPClient.t) (tr : trace.HmsTrace)
    (n : nat) (request : http.Request) : list Event :=
  EvDo n request ::
  match Do env (HTTPClient.Client c) n request with
  | http.DoErr _ => []
  | http.DoResp status header body readErr =>
      hook_events (trace.GotResponseStatus tr) status ++
      EvReadAll n ::
      match readErr with
      | Some _ => []
      | None => hook_events (trace.GotResponseBody tr) body
      end ++ [EvClose n]
  end.

(** The events of the [n]-th attempt on request [r] with hooks [tr]. *)
Definition attempt_events (env : Env) (c : HTTPClient.t) (tr : trace.HmsTrace)
    (r : PushRequest.t) (n : nat) : list Event :=
  match buildHTTPRequest env r with
  | inr _ => []
  | inl request =>
      hook_events (trace.GotRequestBody tr) (PushRequest.Body r) ++
      exchange_events env c tr n request
  end.

(** The [n]-th attempt on request [r] gets a response envelope from the
    transport. *)
Definition got_envelope (env : Env) (c : HTTPClient.t) (r : PushRequest.t)
    (n : nat) : Prop :=
  exists request status header body readErr,
    buildHTTPRequest env r = inl request
    /\ Do env (HTTPClient.Client c) n request
       = http.DoResp status header body readErr.

(** An attempt function that logs [events_of]. *)
Definition attempt_logs (attempt : M (PushResponse.t + error))
    (events_of : PushRequest.t -> nat -> list Event) : Prop :=
  forall s, events (attempt s).2 = events s ++ events_of (heap_req s) (attempts s).

(** The log of [k] rounds in which the attempt fails and the timer fires,
    from attempt [a] and wait [w] on. *)
Fixpoint rounds_log (events_of : PushRequest.t -> nat -> list Event)
    (r : PushRequest.t) (d : Duration) (a w k : nat) : list Event :=
  match k with
  | O => []
  | S k' =>
      events_of r a ++ EvTimer w d :: rounds_log events_of r d (S a) (S w) k'
  end.

(** The value of a header after a list of [SetHeader key value] options:
    the value of the last option whose key has the same canonical form. *)
Fixpoint last_value (canonical : string -> string) (key : string)
    (options : list (string * string)) (found : option string) : option string :=
  match options with
  | [] => found
  | (k, v) :: rest =>
      last_value canonical key rest
        (if bool_decide (canonical k = canonical key) then Some v else found)
  end.

(** * Properties *)

(** ** The wait between attempts *)

Lemma pendingForRetry_no_interval c ctx s :
  (RetryInterval (HTTPClient.RetryConfig c) <= 0)%Z ->
  pendingForRetry c ctx s = (false, s).
Proof.
  intros H. unfold pendingForRetry.
  destruct (Z.ltb_spec 0 (RetryInterval (HTTPClient.RetryConfig c))); [lia | reflexivity].
Qed.

Lemma pendingForRetry_interval c ctx s :
  (0 < RetryInterval (HTTPClient.RetryConfig c))%Z ->
  (pendingForRetry c ctx s).1 = negb (context.Done ctx (waits s))
  /\ heap_req (pendingForRetry c ctx s).2 = heap_req s
  /\ attempts (pendingForRetry c ctx s).2 = attempts s
  /\ waits (pendingForRetry c ctx s).2 = S (waits s).
Proof.
  intros H. unfold pendingForRetry.
  destruct (Z.ltb_spec 0 (RetryInterval (HTTPClient.RetryConfig c))); [| lia].
  unfold bind, next_wait, emit, ret; simpl.
  destruct (context.Done ctx (waits s)); simpl; auto.
Qed.

(** ** One attempt *)

Lemma call_hook_frame {A} (hook : option (A -> string)) (a : A) s :
  heap_req (call_hook hook a s).2 = heap_req s
  /\ attempts (call_hook hook a s).2 = attempts s
  /\ waits (call_hook hook a s).2 = waits s.
Proof. destruct hook; simpl; auto. Qed.

Lemma Lenient_doHttpRequest_like env c :
  attempt_like (Lenient.doHttpRequest env c) (Lenient.attempt_result env c).
Proof.
  split; intros s; unfold Lenient.attempt_result, Lenient.doHttpRequest,
    bind, next_attempt, load_req, emit, ret; simpl;
    destruct (buildHTTPRequest env (heap_req s)) as [request | err]; simpl; auto;
    destruct (Do env (HTTPClient.Client c) (attempts s) request)
      as [err | st h b [err |]]; simpl; auto.
Qed.

Lemma Strict_doHttpRequest_like env c ctx :
  attempt_like (Strict.doHttpRequest env c ctx) (Strict.attempt_result env c ctx).
Proof.
  split; intros s; unfold Strict.attempt_result, Strict.doHttpRequest,
    bind, next_attempt, load_req, emit, ret, call_hook; simpl;
    destruct (buildHTTPRequest env (heap_req s)) as [request | err]; simpl; auto;
    destruct (context.Value ctx) as [[[f1 |] [f2 |] [f3 |]] |]; simpl;
    destruct (Do env (HTTPClient.Client c) (attempts s) request)
      as [err | st h b [err |]]; simpl; auto.
Qed.

(** The two files' attempts return the same thing: the hooks only watch. *)
Lemma Strict_attempt_result_Lenient env c ctx r n :
  Strict.attempt_result env c ctx r n = Lenient.attempt_result env c r n.
Proof.
  unfold Strict.attempt_result, Lenient.attempt_result, Strict.doHttpRequest,
    Lenient.doHttpRequest, bind, next_attempt, load_req, emit, ret, call_hook; simpl.
  destruct (buildHTTPRequest env r) as [request | err]; simpl; auto.
  destruct (context.Value ctx) as [[[f1 |] [f2 |] [f3 |]] |]; simpl;
    destruct (Do env (HTTPClient.Client c) n request)
      as [err | st h b [err |]]; simpl; auto.
Qed.

(** An attempt returns a response exactly when the request builds, the
    transport hands back an envelope and the body is read in full; the
    status code is copied, never looked at. *)
Lemma Lenient_attempt_result_unfold env c r n :
  Lenient.attempt_result env c r n =
  match buildHTTPRequest env r with
  | inr err => inr err
  | inl request =>
      match Do env (HTTPClient.Client c) n request with
      | http.DoErr err => inr err
      | http.DoResp status header body (Some err) => inr err
      | http.DoResp status header body None =>
          inl {| PushResponse.Status := status;
                 PushResponse.Header := header;
                 PushResponse.Body := body |}
      end
  end.
Proof.
  unfold Lenient.attempt_result, Lenient.doHttpRequest,
    bind, next_attempt, load_req, emit, ret; simpl.
  destruct (buildHTTPRequest env r) as [request | err]; simpl; auto.
  destruct (Do env (HTTPClient.Client c) n request)
    as [err | st h b [err |]]; simpl; auto.
Qed.

(** ** The retry loop, for any attempt function *)

Section retry_loop.
Variable attempt : M (PushResponse.t + error).
Variable result_of : PushRequest.t -> nat -> PushResponse.t + error.
Hypothesis like : attempt_like attempt result_of.

Variable c : HTTPClient.t.
Variable ctx : context.Context.

Let N := MaxRetryTimes (HTTPClient.RetryConfig c).
Let interval := RetryInterval (HTTPClient.RetryConfig c).
Let loop := DoHttpRequest_for attempt c ctx.
Let run := loop (Z.to_nat N) 0%Z None None.

Lemma loop_done fuel t r e s :
    (N <= t)%Z -> loop fuel t r e s = ((r, e), s).
  Proof.
    intros H. subst loop. destruct fuel; simpl; [reflexivity |].
    destruct (Z.ltb_spec t (MaxRetryTimes (HTTPClient.RetryConfig c)));
      [subst N; lia | reflexivity].
  Qed.

  (** One iteration: the attempt, then either the [break] on success, the
      [break] when [pendingForRetry] refuses, or the next iteration. *)
Lemma loop_step fuel t r e s :
    (t < N)%Z ->
    loop (S fuel) t r e s =
    match result_of (heap_req s) (attempts s) with
    | inl response => ((Some response, None), (attempt s).2)
    | inr err =>
        let p := pendingForRetry c ctx (attempt s).2 in
        if p.1 then loop fuel (t + 1)%Z None (Some err) p.2
        else ((None, Some err), p.2)
    end.
  Proof.
    intros H. subst loop. simpl.
    destruct (Z.ltb_spec t (MaxRetryTimes (HTTPClient.RetryConfig c)));
      [| subst N; lia].
    unfold bind. rewrite <- (attempt_value _ _ like s).
    destruct (attempt s) as [[response | err] s1]; simpl; [reflexivity |].
    destruct (pendingForRetry c ctx s1) as [[|] s2]; reflexivity.
  Qed.

  (** The fuel [DoHttpRequest] starts with is never what ends the loop. *)
Lemma loop_fuel fuel t r e s :
    (N - t <= Z.of_nat fuel)%Z ->
    loop fuel t r e s = loop (Z.to_nat (N - t)) t r e s.
  Proof.
    revert t r e s. induction fuel as [| fuel IH]; intros t r e s H.
    - replace (Z.to_nat (N - t)) with 0 by lia. reflexivity.
    - destruct (Z.lt_ge_cases t N) as [Hlt | Hge].
      + replace (Z.to_nat (N - t)) with (S (Z.to_nat (N - (t + 1)))) by lia.
        rewrite !loop_step by assumption.
        destruct (result_of (heap_req s) (attempts s)); [reflexivity |].
        cbv zeta. destruct (pendingForRetry c ctx (attempt s).2) as [[|] s2];
          simpl; [| reflexivity].
        apply IH. lia.
      + rewrite !loop_done by assumption. reflexivity.
  Qed.

  (** What every run of the loop satisfies: the request is left alone, the
      attempts made are consecutive, all but the last one failed, and the
      returned pair is the last attempt's. *)
Lemma loop_last fuel t r e s :
    let out := loop fuel t r e s in
    heap_req out.2 = heap_req s
    /\ attempts s <= attempts out.2 <= attempts s + fuel
    /\ (Z.of_nat (attempts out.2 - attempts s) <= Z.max 0 (N - t))%Z
    /\ (attempts out.2 = attempts s -> out.1 = (r, e) /\ waits out.2 = waits s)
    /\ (attempts s < attempts out.2 ->
        out.1 = assigned (result_of (heap_req s) (attempts out.2 - 1)))
    /\ (forall j, attempts s <= j < attempts out.2 - 1 ->
        failed (result_of (heap_req s) j)).
  Proof.
    revert t r e s. induction fuel as [| fuel IH]; intros t r e s; cbv zeta.
    - subst loop. cbn [DoHttpRequest_for ret fst snd].
      repeat split; try lia.
    - destruct (Z.lt_ge_cases t N) as [Hlt | Hge].
      2: { rewrite loop_done by assumption. cbn [fst snd].
           repeat split; try lia. }
      rewrite loop_step by assumption.
      pose proof (attempt_heap _ _ like s) as Hh.
      pose proof (attempt_count _ _ like s) as Hc.
      pose proof (attempt_waits _ _ like s) as Hw.
      assert (Hone : forall x, result_of (heap_req s) (attempts s) = x ->
                assigned x = assigned (result_of (heap_req s) (S (attempts s) - 1))).
      { intros x <-. f_equal. f_equal. lia. }
      destruct (result_of (heap_req s) (attempts s)) as [response | err] eqn:Hres.
      { cbn [fst snd]. rewrite Hc.
        repeat split; try lia; try congruence.
        intros _. apply (Hone (inl response)). reflexivity. }
      cbv zeta.
      destruct (Z.lt_ge_cases 0 interval) as [Hi | Hi].
      + destruct (pendingForRetry_interval c ctx (attempt s).2 Hi)
          as (Hv & Hph & Hpc & Hpw).
        destruct (pendingForRetry c ctx (attempt s).2) as [again s2].
        cbn [fst snd] in Hv, Hph, Hpc, Hpw |- *.
        destruct again; cbn [fst snd].
        * specialize (IH (t + 1)%Z None (Some err) s2). cbv zeta in IH.
          destruct IH as (H1 & H2 & H3 & H4 & H5 & H6).
          rewrite Hph, Hh in *. rewrite Hpc, Hc in *.
          repeat split; try lia; try congruence.
          -- intros Hgt.
             destruct (Nat.eq_dec
               (attempts (loop fuel (t + 1)%Z None (Some err) s2).2)
               (S (attempts s))) as [Heq | Hne].
             ++ rewrite (proj1 (H4 Heq)), Heq.
                apply (Hone (inr err)). reflexivity.
             ++ apply H5. lia.
          -- intros j Hj.
             destruct (Nat.eq_dec j (attempts s)) as [-> | Hne].
             ++ rewrite Hres. exact I.
             ++ apply H6. lia.
        * rewrite Hph, Hh, Hpc, Hc.
          repeat split; try lia; try congruence.
          intros _. apply (Hone (inr err)). reflexivity.
      + rewrite pendingForRetry_no_interval by (subst interval; lia).
        cbn [fst snd]. rewrite Hh, Hc.
        repeat split; try lia; try congruence.
        intros _. apply (Hone (inr err)). reflexivity.
  Qed.

  (** With no interval the loop body runs at most once, and nothing is
      awaited. *)
Lemma loop_no_interval fuel t r e s :
    (interval <= 0)%Z -> (t < N)%Z ->
    loop (S fuel) t r e s =
    (assigned (result_of (heap_req s) (attempts s)), (attempt s).2).
  Proof.
    intros Hi Hlt. rewrite loop_step by assumption.
    destruct (result_of (heap_req s) (attempts s)); [reflexivity |].
    cbv zeta. rewrite pendingForRetry_no_interval by (subst interval; lia).
    reflexivity.
  Qed.

  (** [k] rounds in which the attempt fails and the timer fires bring the
      loop to its [k]-th iteration, with the last error in [err]. *)
Lemma loop_rounds k : forall fuel t r e s,
    (0 < interval)%Z ->
    k <= fuel -> (t + Z.of_nat k <= N)%Z ->
    (forall j, j < k -> failed (result_of (heap_req s) (attempts s + j))) ->
    (forall j, j < k -> context.Done ctx (waits s + j) = false) ->
    exists s' r' e',
      loop fuel t r e s = loop (fuel - k) (t + Z.of_nat k)%Z r' e' s'
      /\ heap_req s' = heap_req s
      /\ attempts s' = attempts s + k
      /\ waits s' = waits s + k
      /\ (r', e') =
         match k with
         | 0 => (r, e)
         | S k' => assigned (result_of (heap_req s) (attempts s + k'))
         end.
  Proof.
    induction k as [| k IH]; intros fuel t r e s Hi Hk Ht Hfail Htimer.
    - exists s, r, e. rewrite Nat.sub_0_r, Z.add_0_r, !Nat.add_0_r.
      repeat split; auto.
    - destruct fuel as [| fuel]; [lia |].
      rewrite loop_step by lia.
      pose proof (Hfail 0 ltac:(lia)) as H0.
      pose proof (Htimer 0 ltac:(lia)) as T0.
      rewrite Nat.add_0_r in H0, T0.
      destruct (result_of (heap_req s) (attempts s)) as [| err] eqn:Hres;
        [destruct H0 |].
      cbv zeta.
      destruct (pendingForRetry_interval c ctx (attempt s).2 Hi)
        as (Hv & Hph & Hpc & Hpw).
      rewrite (attempt_waits _ _ like), T0 in Hv.
      rewrite (attempt_heap _ _ like) in Hph.
      rewrite (attempt_count _ _ like) in Hpc.
      rewrite (attempt_waits _ _ like) in Hpw.
      destruct (pendingForRetry c ctx (attempt s).2) as [again s2].
      cbn [fst snd] in Hv, Hph, Hpc, Hpw |- *.
      rewrite Hv. cbn [negb].
      destruct (IH fuel (t + 1)%Z None (Some err) s2 Hi)
        as (s' & r' & e' & Heq & H1 & H2 & H3 & H4).
      + lia.
      + lia.
      + intros j Hj. rewrite Hph, Hpc.
        replace (S (attempts s) + j) with (attempts s + S j) by lia.
        apply Hfail. lia.
      + intros j Hj. rewrite Hpw.
        replace (S (waits s) + j) with (waits s + S j) by lia.
        apply Htimer. lia.
      + exists s', r', e'. rewrite Heq.
        replace (t + 1 + Z.of_nat k)%Z with (t + Z.of_nat (S k))%Z by lia.
        replace (S fuel - S k) with (fuel - k) by lia.
        repeat split; try lia; try congruence.
        rewrite H4. destruct k as [| k].
        * rewrite Nat.add_0_r, Hres. reflexivity.
        * rewrite Hph, Hpc. do 2 f_equal. lia.
  Qed.

  (** *** Whole calls: the loop as [DoHttpRequest] starts it *)

Lemma run_zero s : (N <= 0)%Z -> run s = ((None, None), s).
  Proof. intros H. subst run. apply loop_done. exact H. Qed.

Lemma run_no_interval s :
    (1 <= N)%Z -> (interval <= 0)%Z ->
    run s = (assigned (result_of (heap_req s) (attempts s)), (attempt s).2).
  Proof.
    intros HN Hi. subst run.
    replace (Z.to_nat N) with (S (Z.to_nat (N - 1))) by lia.
    apply loop_no_interval; [exact Hi | lia].
  Qed.

Lemma run_all_fail s :
    (1 <= N)%Z -> (0 < interval)%Z ->
    (forall j, j < Z.to_nat N ->
       failed (result_of (heap_req s) (attempts s + j))) ->
    (forall j, j < Z.to_nat N -> context.Done ctx (waits s + j) = false) ->
    heap_req (run s).2 = heap_req s
    /\ attempts (run s).2 = attempts s + Z.to_nat N
    /\ waits (run s).2 = waits s + Z.to_nat N
    /\ (run s).1 =
       assigned (result_of (heap_req s) (attempts s + Z.to_nat N - 1)).
  Proof.
    intros HN Hi Hfail Htimer. subst run.
    destruct (loop_rounds (Z.to_nat N) (Z.to_nat N) 0%Z None None s Hi)
      as (s' & r' & e' & Heq & H1 & H2 & H3 & H4); auto; try lia.
    rewrite Heq, loop_done by lia. cbn [fst snd].
    repeat split; auto.
    rewrite H4. destruct (Z.to_nat N) as [| n] eqn:Hn; [lia |].
    do 2 f_equal. lia.
  Qed.

  (** The [k]-th attempt of the call fails and the context is cancelled
      during the wait that follows it. *)
Lemma run_cancelled s k err :
    (0 < interval)%Z -> 1 <= k -> (Z.of_nat k <= N)%Z ->
    (forall j, j < k - 1 ->
       failed (result_of (heap_req s) (attempts s + j))) ->
    (forall j, j < k - 1 -> context.Done ctx (waits s + j) = false) ->
    result_of (heap_req s) (attempts s + k - 1) = inr err ->
    context.Done ctx (waits s + k - 1) = true ->
    heap_req (run s).2 = heap_req s
    /\ attempts (run s).2 = attempts s + k
    /\ waits (run s).2 = waits s + k
    /\ (run s).1 = (None, Some err).
  Proof.
    intros Hi Hk HkN Hfail Htimer Hres Hdone. subst run.
    destruct (loop_rounds (k - 1) (Z.to_nat N) 0%Z None None s Hi)
      as (s' & r' & e' & Heq & H1 & H2 & H3 & H4); auto; try lia.
    rewrite Heq.
    replace (Z.to_nat N - (k - 1)) with (S (Z.to_nat N - k)) by lia.
    rewrite loop_step by lia.
    rewrite H1, H2. replace (attempts s + (k - 1)) with (attempts s + k - 1) by lia.
    rewrite Hres. cbv zeta.
    destruct (pendingForRetry_interval c ctx (attempt s').2 Hi)
      as (Hv & Hph & Hpc & Hpw).
    rewrite (attempt_waits _ _ like), H3 in Hv.
    replace (waits s + (k - 1)) with (waits s + k - 1) in Hv by lia.
    rewrite Hdone in Hv.
    rewrite (attempt_heap _ _ like) in Hph.
    rewrite (attempt_count _ _ like) in Hpc.
    rewrite (attempt_waits _ _ like) in Hpw.
    destruct (pendingForRetry c ctx (attempt s').2) as [again s2].
    cbn [fst snd] in Hv, Hph, Hpc, Hpw |- *. rewrite Hv. cbn [negb fst snd].
    repeat split; try lia; congruence.
  Qed.

  (** The attempts before the [k]-th fail with the timer firing after each,
      and the [k]-th succeeds. *)
Lemma run_scripted_success s k response :
    (0 < interval)%Z -> 1 <= k -> (Z.of_nat k <= N)%Z ->
    (forall j, j < k - 1 ->
       failed (result_of (heap_req s) (attempts s + j))) ->
    (forall j, j < k - 1 -> context.Done ctx (waits s + j) = false) ->
    result_of (heap_req s) (attempts s + k - 1) = inl response ->
    heap_req (run s).2 = heap_req s
    /\ attempts (run s).2 = attempts s + k
    /\ waits (run s).2 = waits s + (k - 1)
    /\ (run s).1 = (Some response, None).
  Proof.
    intros Hi Hk HkN Hfail Htimer Hres. subst run.
    destruct (loop_rounds (k - 1) (Z.to_nat N) 0%Z None None s Hi)
      as (s' & r' & e' & Heq & H1 & H2 & H3 & H4); auto; try lia.
    rewrite Heq.
    replace (Z.to_nat N - (k - 1)) with (S (Z.to_nat N - k)) by lia.
    rewrite loop_step by lia.
    rewrite H1, H2. replace (attempts s + (k - 1)) with (attempts s + k - 1) by lia.
    rewrite Hres. cbn [fst snd].
    rewrite (attempt_heap _ _ like), (attempt_count _ _ like),
      (attempt_waits _ _ like).
    repeat split; try lia; congruence.
  Qed.

  (** An attempt that is made and succeeds is the last one, and its
      response is the result. *)
Lemma run_success_is_last s n response :
    attempts s <= n < attempts (run s).2 ->
    result_of (heap_req s) n = inl response ->
    attempts (run s).2 = S n
    /\ (run s).1 = (Some response, None)
    /\ (Z.of_nat (S n - attempts s) <= N)%Z.
  Proof.
    intros Hn Hres. subst run.
    destruct (loop_last (Z.to_nat N) 0%Z None None s)
      as (H1 & H2 & H3 & H4 & H5 & H6).
    assert (Hlast : attempts (loop (Z.to_nat N) 0%Z None None s).2 = S n).
    { destruct (Nat.lt_ge_cases n
        (attempts (loop (Z.to_nat N) 0%Z None None s).2 - 1)) as [Hlt | Hge];
        [| lia].
      specialize (H6 n ltac:(lia)). rewrite Hres in H6. destruct H6. }
    split; [exact Hlast |]. split.
    - rewrite H5 by lia. rewrite Hlast.
      replace (S n - 1) with n by lia. rewrite Hres. reflexivity.
    - rewrite Hlast in H3. lia.
  Qed.

  (** The request the argument points to is the same after the call. *)
Lemma run_heap s : heap_req (run s).2 = heap_req s.
  Proof. subst run. apply loop_last. Qed.
End retry_loop.

(** ** The retry loop of the two files *)

Ltac lenient_run lem env c ctx s :=
  pose proof (lem _ _ (Lenient_doHttpRequest_like env c) c ctx s);
  unfold Lenient.DoHttpRequest in *.

Ltac strict_run lem env c ctx s :=
  pose proof (lem _ _ (Strict_doHttpRequest_like env c ctx) c ctx s);
  unfold Strict.DoHttpRequest in *.

(** C1, as the code has it: with [RetryInterval = 0] and [MaxRetryTimes >= 1],
    when the first attempt fails no wait is entered and no second attempt is
    made; [DoHttpRequest] returns the first attempt's error after exactly one
    attempt.  A zero interval switches the retry off, not only the wait. *)
Theorem zero_interval_single_attempt env c ctx s :
  (1 <= MaxRetryTimes (HTTPClient.RetryConfig c))%Z ->
  RetryInterval (HTTPClient.RetryConfig c) = 0%Z ->
  (forall e,
     Lenient.attempt_result env c (heap_req s) (attempts s) = inr e ->
     let out := Lenient.DoHttpRequest env c ctx s in
     out.1 = (None, Some e)
     /\ attempts out.2 = S (attempts s)
     /\ waits out.2 = waits s)
  /\ (forall e,
     Strict.attempt_result env c ctx (heap_req s) (attempts s) = inr e ->
     let out := Strict.DoHttpRequest env c ctx s in
     out.1 = (None, Some e)
     /\ attempts out.2 = S (attempts s)
     /\ waits out.2 = waits s).
Proof.
  intros HN Hi. split; intros e He; cbv zeta.
  - lenient_run run_no_interval env c ctx s.
    rewrite H by lia. rewrite He. cbn [fst snd assigned].
    pose proof (Lenient_doHttpRequest_like env c) as L.
    rewrite (attempt_count _ _ L), (attempt_waits _ _ L). auto.
  - strict_run run_no_interval env c ctx s.
    rewrite H by lia. rewrite He. cbn [fst snd assigned].
    pose proof (Strict_doHttpRequest_like env c ctx) as L.
    rewrite (attempt_count _ _ L), (attempt_waits _ _ L). auto.
Qed.

Lemma zero_interval_single_attempt_witness :
  let e := Fixture.env Fixture.always_refused in
  let out := Lenient.DoHttpRequest e (Fixture.client 3%Z 0%Z)
               Fixture.never_cancelled (Fixture.start e) in
  out.1 = (None, Some "connection refused")
  /\ attempts out.2 = 1
  /\ waits out.2 = 0.
Proof.
  intros e.
  refine (proj1 (zero_interval_single_attempt e (Fixture.client 3%Z 0%Z)
            Fixture.never_cancelled (Fixture.start e) _ _)
          "connection refused" _).
  - discriminate.
  - reflexivity.
  - reflexivity.
Defined.

(** C1 fails as stated: a client with [MaxRetryTimes = 2] and
    [RetryInterval = 0] whose attempt fails makes no second attempt. *)
Lemma zero_interval_second_attempt_counterexample :
  let e := Fixture.env Fixture.always_refused in
  let c := Fixture.client 2%Z 0%Z in
  let s := Fixture.start e in
  (1 < MaxRetryTimes (HTTPClient.RetryConfig c))%Z
  /\ RetryInterval (HTTPClient.RetryConfig c) = 0%Z
  /\ failed (Lenient.attempt_result e c (heap_req s) (attempts s))
  /\ failed (Strict.attempt_result e c Fixture.never_cancelled (heap_req s) (attempts s))
  /\ attempts (Lenient.DoHttpRequest e c Fixture.never_cancelled s).2 = 1
  /\ attempts (Strict.DoHttpRequest e c Fixture.never_cancelled s).2 = 1
  /\ ~ (2 <= attempts (Lenient.DoHttpRequest e c Fixture.never_cancelled s).2).
Proof.
  cbv zeta. repeat split; try reflexivity; try exact I.
  vm_compute. lia.
Qed.

(** C2, as the code has it: for [MaxRetryTimes = N >= 1] and
    [RetryInterval > 0], a client whose every attempt fails, with no
    cancellation asserted, makes exactly [N] attempts and returns the [N]-th
    attempt's error. *)
Theorem all_attempts_fail_exactly_N env c ctx s :
  let N := Z.to_nat (MaxRetryTimes (HTTPClient.RetryConfig c)) in
  (1 <= MaxRetryTimes (HTTPClient.RetryConfig c))%Z ->
  (0 < RetryInterval (HTTPClient.RetryConfig c))%Z ->
  (forall w, context.Done ctx w = false) ->
  ((forall n, failed (Lenient.attempt_result env c (heap_req s) n)) ->
     let out := Lenient.DoHttpRequest env c ctx s in
     attempts out.2 = attempts s + N
     /\ exists e,
         Lenient.attempt_result env c (heap_req s) (attempts s + N - 1) = inr e
         /\ out.1 = (None, Some e))
  /\ ((forall n, failed (Strict.attempt_result env c ctx (heap_req s) n)) ->
     let out := Strict.DoHttpRequest env c ctx s in
     attempts out.2 = attempts s + N
     /\ exists e,
         Strict.attempt_result env c ctx (heap_req s) (attempts s + N - 1) = inr e
         /\ out.1 = (None, Some e)).
Proof.
  intros N HN Hi Hctx. split; intros Hfail; cbv zeta.
  - lenient_run run_all_fail env c ctx s.
    destruct H as (_ & Hc & _ & Hr); auto.
    split; [exact Hc |].
    specialize (Hfail (attempts s + N - 1)). fold N in Hr.
    destruct (Lenient.attempt_result env c (heap_req s) (attempts s + N - 1))
      as [| e]; [destruct Hfail |].
    exists e. auto.
  - strict_run run_all_fail env c ctx s.
    destruct H as (_ & Hc & _ & Hr); auto.
    split; [exact Hc |].
    specialize (Hfail (attempts s + N - 1)). fold N in Hr.
    destruct (Strict.attempt_result env c ctx (heap_req s) (attempts s + N - 1))
      as [| e]; [destruct Hfail |].
    exists e. auto.
Qed.

Lemma all_attempts_fail_exactly_N_witness :
  let e := Fixture.env Fixture.numbered_refusals in
  let out := Lenient.DoHttpRequest e (Fixture.client 3%Z 5%Z)
               Fixture.never_cancelled (Fixture.start e) in
  attempts out.2 = 3
  /\ exists err,
      Lenient.attempt_result e (Fixture.client 3%Z 5%Z) (Fixture.request e) 2 = inr err
      /\ out.1 = (None, Some err).
Proof.
  intros e.
  refine (proj1 (all_attempts_fail_exactly_N e (Fixture.client 3%Z 5%Z)
            Fixture.never_cancelled (Fixture.start e) _ _ _) _).
  - discriminate.
  - reflexivity.
  - reflexivity.
  - intros n. exact I.
Defined.

(** C2 fails as stated: with [MaxRetryTimes = 2] and [RetryInterval = 0], a
    client whose every attempt fails, never cancelled, makes one attempt, not
    two, and returns the first attempt's error. *)
Lemma all_attempts_fail_counterexample :
  let e := Fixture.env Fixture.numbered_refusals in
  let c := Fixture.client 2%Z 0%Z in
  let s := Fixture.start e in
  (1 <= MaxRetryTimes (HTTPClient.RetryConfig c))%Z
  /\ (forall w, context.Done Fixture.never_cancelled w = false)
  /\ (forall n, failed (Lenient.attempt_result e c (heap_req s) n))
  /\ attempts (Lenient.DoHttpRequest e c Fixture.never_cancelled s).2 = 1
  /\ attempts (Lenient.DoHttpRequest e c Fixture.never_cancelled s).2
     <> attempts s + Z.to_nat (MaxRetryTimes (HTTPClient.RetryConfig c))
  /\ (Lenient.DoHttpRequest e c Fixture.never_cancelled s).1 = (None, Some "0")
  /\ Lenient.attempt_result e c (heap_req s) 1 = inr "1".
Proof.
  cbv zeta. repeat split; try reflexivity; try discriminate.
Qed.

(** C4: when an attempt that is made gets a response envelope from the
    transport and reads its body in full, that attempt is the last one and
    [DoHttpRequest] returns its response, whatever the status code: the
    status is copied into the result and nothing else is done with it. *)
Theorem received_response_is_success env c ctx s n request status header body :
  buildHTTPRequest env (heap_req s) = inl request ->
  Do env (HTTPClient.Client c) n request = http.DoResp status header body None ->
  let response :=
    {| PushResponse.Status := status;
       PushResponse.Header := header;
       PushResponse.Body := body |} in
  (let out := Lenient.DoHttpRequest env c ctx s in
   attempts s <= n < attempts out.2 ->
   out.1 = (Some response, None) /\ attempts out.2 = S n)
  /\ (let out := Strict.DoHttpRequest env c ctx s in
   attempts s <= n < attempts out.2 ->
   out.1 = (Some response, None) /\ attempts out.2 = S n).
Proof.
  intros Hbuild Hdo response.
  assert (Hres : Lenient.attempt_result env c (heap_req s) n = inl response).
  { rewrite Lenient_attempt_result_unfold, Hbuild, Hdo. reflexivity. }
  split; cbv zeta; intros Hn.
  - lenient_run run_success_is_last env c ctx s.
    destruct (H n response Hn Hres) as (H1 & H2 & _). auto.
  - strict_run run_success_is_last env c ctx s.
    rewrite <- (Strict_attempt_result_Lenient env c ctx) in Hres.
    destruct (H n response Hn Hres) as (H1 & H2 & _). auto.
Qed.

Lemma received_response_is_success_witness :
  let e := Fixture.env (Fixture.served_at 2 503) in
  let out := Lenient.DoHttpRequest e (Fixture.client 3%Z 5%Z)
               Fixture.never_cancelled (Fixture.start e) in
  out.1 = (Some {| PushResponse.Status := 503;
                   PushResponse.Header := ∅;
                   PushResponse.Body := [x6f; x6b] |}, None)
  /\ attempts out.2 = 3.
Proof.
  intros e.
  pose (request :=
    fold_left (fun req opt => opt req) (PushRequest.Header (Fixture.request e))
      {| http.reqMethod := "POST";
         http.reqURL := {| url.Scheme := "https";
                           url.Host := "push-api.cloud.huawei.com";
                           url.Path := "" |};
         http.reqHeader := ∅;
         http.reqBody := Some [x7b; x7d] |}).
  refine (proj1 (received_response_is_success e (Fixture.client 3%Z 5%Z)
            Fixture.never_cancelled (Fixture.start e) 2 request
            503%Z ∅ [x6f; x6b] _ _) _).
  - reflexivity.
  - reflexivity.
  - vm_compute. split; repeat constructor.
Defined.

(** An attempt that is made and succeeds is the last one: if the [k]-th
    attempt of a call is made and succeeds, exactly [k] attempts are made
    ([k <= MaxRetryTimes]) and the result of [DoHttpRequest] is that
    attempt's response.  (All attempts before it failed, by [loop_last].) *)
Theorem first_success_ends_the_call env c ctx s k response :
  1 <= k ->
  (let out := Lenient.DoHttpRequest env c ctx s in
   attempts s + k <= attempts out.2 ->
   Lenient.attempt_result env c (heap_req s) (attempts s + k - 1) = inl response ->
   attempts out.2 = attempts s + k
   /\ out.1 = (Some response, None)
   /\ (Z.of_nat k <= MaxRetryTimes (HTTPClient.RetryConfig c))%Z)
  /\ (let out := Strict.DoHttpRequest env c ctx s in
   attempts s + k <= attempts out.2 ->
   Strict.attempt_result env c ctx (heap_req s) (attempts s + k - 1) = inl response ->
   attempts out.2 = attempts s + k
   /\ out.1 = (Some response, None)
   /\ (Z.of_nat k <= MaxRetryTimes (HTTPClient.RetryConfig c))%Z).
Proof.
  intros Hk. split; cbv zeta; intros Hmade Hres.
  - lenient_run run_success_is_last env c ctx s.
    destruct (H (attempts s + k - 1) response ltac:(lia) Hres) as (H1 & H2 & H3).
    repeat split; [lia | exact H2 | lia].
  - strict_run run_success_is_last env c ctx s.
    destruct (H (attempts s + k - 1) response ltac:(lia) Hres) as (H1 & H2 & H3).
    repeat split; [lia | exact H2 | lia].
Qed.

Lemma first_success_ends_the_call_witness :
  let e := Fixture.env (Fixture.served_at 1 200) in
  let out := Lenient.DoHttpRequest e (Fixture.client 3%Z 5%Z)
               Fixture.never_cancelled (Fixture.start e) in
  attempts out.2 = 2
  /\ out.1 = (Some {| PushResponse.Status := 200;
                      PushResponse.Header := ∅;
                      PushResponse.Body := [x6f; x6b] |}, None)
  /\ (2 <= 3)%Z.
Proof.
  intros e.
  refine (proj1 (first_success_ends_the_call e (Fixture.client 3%Z 5%Z)
            Fixture.never_cancelled (Fixture.start e) 2 _ _) _ _).
  - repeat constructor.
  - vm_compute. repeat constructor.
  - reflexivity.
Defined.

(** The same for a scripted transport: when the first [k - 1] attempts fail,
    the [k]-th would succeed, the interval is positive and no wait is
    cancelled, the [k]-th attempt is reached and ends the call. *)
Lemma scripted_success_is_reached env c ctx s k response :
  (0 < RetryInterval (HTTPClient.RetryConfig c))%Z ->
  1 <= k -> (Z.of_nat k <= MaxRetryTimes (HTTPClient.RetryConfig c))%Z ->
  (forall j, j < k - 1 -> context.Done ctx (waits s + j) = false) ->
  (forall j, j < k - 1 ->
     failed (Lenient.attempt_result env c (heap_req s) (attempts s + j))) ->
  Lenient.attempt_result env c (heap_req s) (attempts s + k - 1) = inl response ->
  (let out := Lenient.DoHttpRequest env c ctx s in
   attempts out.2 = attempts s + k /\ out.1 = (Some response, None))
  /\ (let out := Strict.DoHttpRequest env c ctx s in
   attempts out.2 = attempts s + k /\ out.1 = (Some response, None)).
Proof.
  intros Hi Hk HkN Htimer Hfail Hres. split; cbv zeta.
  - lenient_run run_scripted_success env c ctx s.
    destruct (H k response) as (_ & H1 & _ & H2); auto.
  - strict_run run_scripted_success env c ctx s.
    destruct (H k response) as (_ & H1 & _ & H2); auto.
    + intros j Hj. rewrite Strict_attempt_result_Lenient. auto.
    + rewrite Strict_attempt_result_Lenient. auto.
Qed.

(** Counts and result of a cancelled call: with a positive interval, if the
    context is cancelled during the wait that follows the [k]-th failed
    attempt, exactly [k] attempts are made and [DoHttpRequest] returns the
    [k]-th attempt's error. *)
Theorem cancellation_during_wait env c ctx s k :
  (0 < RetryInterval (HTTPClient.RetryConfig c))%Z ->
  1 <= k -> (Z.of_nat k <= MaxRetryTimes (HTTPClient.RetryConfig c))%Z ->
  (forall j, j < k - 1 -> context.Done ctx (waits s + j) = false) ->
  context.Done ctx (waits s + k - 1) = true ->
  ((forall j, j < k ->
      failed (Lenient.attempt_result env c (heap_req s) (attempts s + j))) ->
   let out := Lenient.DoHttpRequest env c ctx s in
   attempts out.2 = attempts s + k
   /\ waits out.2 = waits s + k
   /\ exists e,
       Lenient.attempt_result env c (heap_req s) (attempts s + k - 1) = inr e
       /\ out.1 = (None, Some e))
  /\ ((forall j, j < k ->
      failed (Strict.attempt_result env c ctx (heap_req s) (attempts s + j))) ->
   let out := Strict.DoHttpRequest env c ctx s in
   attempts out.2 = attempts s + k
   /\ waits out.2 = waits s + k
   /\ exists e,
       Strict.attempt_result env c ctx (heap_req s) (attempts s + k - 1) = inr e
       /\ out.1 = (None, Some e)).
Proof.
  intros Hi Hk HkN Htimer Hdone. split; intros Hfail; cbv zeta.
  - lenient_run run_cancelled env c ctx s.
    pose proof (Hfail (k - 1) ltac:(lia)) as Hlast.
    replace (attempts s + (k - 1)) with (attempts s + k - 1) in Hlast by lia.
    destruct (Lenient.attempt_result env c (heap_req s) (attempts s + k - 1))
      as [| e] eqn:He; [destruct Hlast |].
    destruct (H k e) as (_ & H1 & H2 & H3); auto.
    { intros j Hj. apply Hfail. lia. }
    repeat split; auto. exists e. auto.
  - strict_run run_cancelled env c ctx s.
    pose proof (Hfail (k - 1) ltac:(lia)) as Hlast.
    replace (attempts s + (k - 1)) with (attempts s + k - 1) in Hlast by lia.
    destruct (Strict.attempt_result env c ctx (heap_req s) (attempts s + k - 1))
      as [| e] eqn:He; [destruct Hlast |].
    destruct (H k e) as (_ & H1 & H2 & H3); auto.
    { intros j Hj. apply Hfail. lia. }
    repeat split; auto. exists e. auto.
Qed.

Lemma cancellation_during_wait_witness :
  let e := Fixture.env Fixture.numbered_refusals in
  let c := Fixture.client 5%Z (10 * Second)%Z in
  let ctx := Fixture.cancelled_in_wait 1 in
  let out := Lenient.DoHttpRequest e c ctx (Fixture.start e) in
  attempts out.2 = 2
  /\ waits out.2 = 2
  /\ exists err,
      Lenient.attempt_result e c (Fixture.request e) 1 = inr err
      /\ out.1 = (None, Some err).
Proof.
  intros e c ctx.
  refine (proj1 (cancellation_during_wait e c ctx (Fixture.start e) 2 _ _ _ _ _) _).
  - reflexivity.
  - repeat constructor.
  - discriminate.
  - intros [| j] Hj; [reflexivity | inversion Hj as [| ? Hj']; inversion Hj'].
  - reflexivity.
  - intros j Hj. exact I.
Defined.

(** ** Client construction *)

Lemma nonempty_length (path : string) :
  path <> "" -> (0 <? String.length path)%nat = true.
Proof. destruct path; [congruence | reflexivity]. Qed.

Lemma AppendCertsFromPEM_none decode pool data :
  decode data = [] -> (x509.AppendCertsFromPEM decode pool data).2 = false.
Proof. intros H. unfold x509.AppendCertsFromPEM. rewrite H. reflexivity. Qed.

(** C3, as the code has it: [NewHTTPClient] of [src/push/config/config.go]
    rejects a retry configuration whose [MaxRetryTimes] is below 1 or above 5
    with an error and no client; for [src/httpclient/httpclient.go] a
    [MaxRetryTimes] below 1 is rejected one step earlier, by
    [Config.ToHTTPClientConfig], which then returns no client
    configuration. *)
Theorem retry_bounds_are_checked env (config : Strict.HTTPClientConfig)
    (rc : HTTPRetryConfig) (cfg : config.Config) :
  Strict.RetryConfig config = Some rc ->
  (MaxRetryTimes rc < 1 \/ 5 < MaxRetryTimes rc)%Z ->
  (config.MaxRetryTimes cfg < 1)%Z ->
  Strict.NewHTTPClient env (Some config) =
    inr (errors_New "maximum retry times value cannot be less than 1 and more than 5")
  /\ config.ToHTTPClientConfig env cfg =
    inr (String.append "MaxRetryTimes value is invalid: "
           (pretty (config.MaxRetryTimes cfg))).
Proof.
  intros Hrc Hout Hcfg. split.
  - unfold Strict.NewHTTPClient, Strict.checked_RetryConfig. rewrite Hrc.
    destruct (Z.ltb_spec (MaxRetryTimes rc) 1); [reflexivity |].
    destruct (Z.ltb_spec 5 (MaxRetryTimes rc)); [reflexivity | lia].
  - unfold config.ToHTTPClientConfig.
    destruct (Z.ltb_spec (config.MaxRetryTimes cfg) 1); [reflexivity | lia].
Qed.

Lemma retry_bounds_are_checked_witness :
  let e := Fixture.env Fixture.always_refused in
  Strict.NewHTTPClient e
    (Some {| Strict.TransportConfig := None;
             Strict.RetryConfig :=
               Some {| MaxRetryTimes := 0%Z; RetryInterval := 0%Z |} |}) =
    inr "maximum retry times value cannot be less than 1 and more than 5"
  /\ config.ToHTTPClientConfig e
       {| config.AppId := "app"; config.AppSecret := "secret";
          config.AuthUrl := "auth"; config.PushUrl := "push";
          config.HttpProxyUrl := ""; config.ProxyCACertPath := "";
          config.MaxRetryTimes := 0%Z; config.RetryInterval := 0%Z |} =
    inr "MaxRetryTimes value is invalid: 0".
Proof.
  intros e.
  refine (retry_bounds_are_checked e _
            {| MaxRetryTimes := 0%Z; RetryInterval := 0%Z |} _ _ _ _).
  - reflexivity.
  - left. reflexivity.
  - reflexivity.
Defined.

(** C3 fails as stated for [src/httpclient/httpclient.go]: there
    [NewHTTPClient] returns a client for [MaxRetryTimes = 0] and adopts the
    value. *)
Lemma unchecked_retry_bounds_counterexample :
  let e := Fixture.env Fixture.always_refused in
  let rc := {| MaxRetryTimes := 0%Z; RetryInterval := 0%Z |} in
  (MaxRetryTimes rc < 1)%Z
  /\ exists c,
      Lenient.NewHTTPClient e
        (Some {| Lenient.ProxyConfig := None; Lenient.RetryConfig := Some rc |})
      = inl c
      /\ MaxRetryTimes (HTTPClient.RetryConfig c) = 0%Z.
Proof.
  cbv zeta. split; [reflexivity |]. eexists. split; reflexivity.
Qed.

(** C10: [NewHTTPClient] of [src/httpclient/httpclient.go] adopts the retry
    configuration it is given without a bounds check: whenever its proxy
    part does not fail, a configuration with [MaxRetryTimes <= 0] yields a
    client, and [DoHttpRequest] on that client makes no attempt and returns
    a nil response with a nil error. *)
Theorem unchecked_retry_config_zero_attempts env
    (config : Lenient.HTTPClientConfig) (rc : HTTPRetryConfig) tr :
  Lenient.RetryConfig config = Some rc ->
  (MaxRetryTimes rc <= 0)%Z ->
  Lenient.proxy_Transport env (Some config) = inl tr ->
  exists c,
    Lenient.NewHTTPClient env (Some config) = inl c
    /\ HTTPClient.RetryConfig c = rc
    /\ forall ctx s, Lenient.DoHttpRequest env c ctx s = ((None, None), s).
Proof.
  intros Hrc Hle Htr.
  set (c := {| HTTPClient.Client := {| http.Transport_ := tr |};
               HTTPClient.RetryConfig := rc |}).
  exists c. split; [| split].
  - unfold Lenient.NewHTTPClient. rewrite Htr.
    destruct config as [pc retry]. simpl in Hrc. subst retry. reflexivity.
  - reflexivity.
  - intros ctx s.
    exact (run_zero (Lenient.doHttpRequest env c) c ctx s Hle).
Qed.

Lemma unchecked_retry_config_zero_attempts_witness :
  let e := Fixture.env Fixture.always_refused in
  let rc := {| MaxRetryTimes := (-1)%Z; RetryInterval := 0%Z |} in
  exists c,
    Lenient.NewHTTPClient e
      (Some {| Lenient.ProxyConfig := None; Lenient.RetryConfig := Some rc |})
    = inl c
    /\ HTTPClient.RetryConfig c = rc
    /\ forall ctx s, Lenient.DoHttpRequest e c ctx s = ((None, None), s).
Proof.
  intros e rc.
  refine (unchecked_retry_config_zero_attempts e _ rc base_Transport _ _ _).
  - reflexivity.
  - discriminate.
  - reflexivity.
Defined.

(** C7: whenever [NewHTTPClient] reads the configured trust-anchor file (an
    [https] proxy with a CA path in one file; a trusted-CA path, after the
    retry check, in the other), a read error is returned as it is and PEM
    data from which no certificate decodes gives the dedicated error; either
    way construction fails and there is no client. *)
Theorem trust_anchor_checked_at_construction env (path : string) :
  path <> "" ->
  (forall proxyURL retry,
     strings_ToLower (url.Scheme proxyURL) = "https" ->
     let config :=
       Some {| Lenient.ProxyConfig :=
                 Some {| Lenient.ProxyUrl := Some proxyURL;
                         Lenient.ProxyCACertPath := path |};
               Lenient.RetryConfig := retry |} in
     match ReadFile env path with
     | inr err => Lenient.NewHTTPClient env config = inr err
     | inl data =>
         decodePEM env data = [] ->
         Lenient.NewHTTPClient env config =
           inr (errors_New "failed to parse proxy server CA certificate")
     end)
  /\ (forall proxy retry,
     match retry with
     | Some rc => (1 <= MaxRetryTimes rc <= 5)%Z
     | None => True
     end ->
     let config :=
       Some {| Strict.TransportConfig :=
                 Some {| Strict.ProxyUrl := proxy; Strict.TrustedCA := path |};
               Strict.RetryConfig := retry |} in
     match ReadFile env path with
     | inr err => Strict.NewHTTPClient env config = inr err
     | inl data =>
         decodePEM env data = [] ->
         Strict.NewHTTPClient env config =
           inr (errors_New "failed to parse trusted CA certificate")
     end).
Proof.
  intros Hpath. split.
  - intros proxyURL retry Hhttps config. subst config.
    unfold Lenient.NewHTTPClient, Lenient.proxy_Transport.
    rewrite Hhttps, nonempty_length by exact Hpath.
    rewrite bool_decide_eq_true_2 by reflexivity. cbn [andb].
    destruct (ReadFile env path) as [data | err]; [| reflexivity].
    intros Hnone. unfold x509.AppendCertsFromPEM. rewrite Hnone. reflexivity.
  - intros proxy retry Hretry config. subst config.
    unfold Strict.NewHTTPClient, Strict.checked_RetryConfig,
      Strict.trusted_Transport. cbn [Strict.RetryConfig Strict.TransportConfig
      Strict.TrustedCA Strict.ProxyUrl].
    rewrite bool_decide_eq_false_2 by exact Hpath. cbn [negb].
    assert (Hchecked :
      match
        match retry with
        | Some rc =>
            if (MaxRetryTimes rc <? 1)%Z || (5 <? MaxRetryTimes rc)%Z
            then inr (errors_New
              "maximum retry times value cannot be less than 1 and more than 5")
            else inl (Some rc)
        | None => inl None
        end
      with
      | inl r => r = retry
      | inr _ => False
      end).
    { destruct retry as [rc |]; [| reflexivity].
      destruct (Z.ltb_spec (MaxRetryTimes rc) 1); [lia |].
      destruct (Z.ltb_spec 5 (MaxRetryTimes rc)); [lia | reflexivity]. }
    destruct (match retry with Some rc => _ | None => _ end) as [r | bad];
      [| destruct Hchecked].
    destruct (ReadFile env path) as [data | err]; [| reflexivity].
    intros Hnone. unfold x509.AppendCertsFromPEM. rewrite Hnone. reflexivity.
Qed.

Lemma trust_anchor_checked_at_construction_witness :
  let e := Fixture.env Fixture.always_refused in
  Lenient.NewHTTPClient e
    (Some {| Lenient.ProxyConfig :=
               Some {| Lenient.ProxyUrl :=
                         Some {| url.Scheme := "HTTPS";
                                 url.Host := "proxy.example";
                                 url.Path := "" |};
                       Lenient.ProxyCACertPath := "junk.pem" |};
             Lenient.RetryConfig := None |}) =
    inr "failed to parse proxy server CA certificate".
Proof.
  intros e.
  refine (proj1 (trust_anchor_checked_at_construction e "junk.pem" _)
            {| url.Scheme := "HTTPS"; url.Host := "proxy.example"; url.Path := "" |}
            None _ _).
  - discriminate.
  - reflexivity.
  - reflexivity.
Defined.

(** ** The request builder *)

Lemma SetHeader_others_untouched env key (post : list (string * string)) :
  forall q,
  Forall (fun kv => CanonicalMIMEHeaderKey env kv.1 <> CanonicalMIMEHeaderKey env key) post ->
  http.reqHeader
    (fold_left (fun req opt => opt req)
       (map (fun kv => SetHeader env kv.1 kv.2) post) q)
    !! CanonicalMIMEHeaderKey env key
  = http.reqHeader q !! CanonicalMIMEHeaderKey env key.
Proof.
  induction post as [| [k v] post IH]; intros q Hpost; [reflexivity |].
  inversion Hpost as [| ? ? Hk Hrest]; subst. cbn [map fold_left].
  rewrite IH by exact Hrest. unfold SetHeader, http.setReqHeader, http.Set_.
  cbn [http.reqHeader fst snd]. apply lookup_insert_ne. exact Hk.
Qed.

(** C8: [buildHTTPRequest] applies the header options from first to last to
    the fresh request; a [SetHeader] option sets one (canonical) key to the
    one value and leaves the rest of the request alone; the last [SetHeader]
    of a key is the one read back, and for
    [[SetHeader "X" "1"; SetHeader "X" "2"]] the header [X] is ["2"]. *)
Theorem header_options_applied_in_order env r req0 :
  http_NewRequest env (PushRequest.Method r) (PushRequest.URL r)
    (PushRequest.Body r) = inl req0 ->
  exists req,
    buildHTTPRequest env r = inl req
    /\ req = fold_left (fun q opt => opt q) (PushRequest.Header r) req0
    /\ (forall key value q,
          SetHeader env key value q =
          http.setReqHeader
            (<[CanonicalMIMEHeaderKey env key := [value]]> (http.reqHeader q)) q)
    /\ (forall pre key value post,
          PushRequest.Header r =
            pre ++ SetHeader env key value
                     :: map (fun kv => SetHeader env kv.1 kv.2) post ->
          Forall (fun kv => CanonicalMIMEHeaderKey env kv.1
                            <> CanonicalMIMEHeaderKey env key) post ->
          http.Get (CanonicalMIMEHeaderKey env) (http.reqHeader req) key = value)
    /\ (PushRequest.Header r = [SetHeader env "X" "1"; SetHeader env "X" "2"] ->
          http.Get (CanonicalMIMEHeaderKey env) (http.reqHeader req) "X" = "2").
Proof.
  intros Hnew. eexists. split; [| split; [reflexivity |]].
  - unfold buildHTTPRequest. rewrite Hnew. reflexivity.
  - assert (Hlast : forall pre key value post,
      PushRequest.Header r =
        pre ++ SetHeader env key value
                 :: map (fun kv => SetHeader env kv.1 kv.2) post ->
      Forall (fun kv => CanonicalMIMEHeaderKey env kv.1
                        <> CanonicalMIMEHeaderKey env key) post ->
      http.Get (CanonicalMIMEHeaderKey env)
        (http.reqHeader
           (fold_left (fun q opt => opt q) (PushRequest.Header r) req0)) key
      = value).
    { intros pre key value post Hr Hpost. rewrite Hr, fold_left_app.
      cbn [fold_left]. unfold http.Get.
      rewrite SetHeader_others_untouched by exact Hpost.
      unfold SetHeader, http.setReqHeader, http.Set_. cbn [http.reqHeader].
      rewrite lookup_insert_eq. reflexivity. }
    split; [reflexivity |]. split; [exact Hlast |].
    intros Hr. apply (Hlast [SetHeader env "X" "1"] "X" "2" []).
    + exact Hr.
    + constructor.
Qed.

Lemma header_options_applied_in_order_witness :
  let e := Fixture.env Fixture.always_refused in
  exists req,
    buildHTTPRequest e (Fixture.request e) = inl req
    /\ http.Get (CanonicalMIMEHeaderKey e) (http.reqHeader req) "X" = "2".
Proof.
  intros e.
  destruct (header_options_applied_in_order e (Fixture.request e)
              {| http.reqMethod := "POST";
                 http.reqURL := {| url.Scheme := "https";
                                   url.Host := "push-api.cloud.huawei.com";
                                   url.Path := "" |};
                 http.reqHeader := ∅;
                 http.reqBody := Some [x7b; x7d] |} eq_refl)
    as (req & Hbuild & _ & _ & _ & HX).
  exists req. split; [exact Hbuild | exact (HX eq_refl)].
Defined.

(** ** The request across one call *)

Lemma DoHttpRequest_for_invariant (P : State -> Prop) attempt c ctx :
  (forall s, P s -> P (attempt s).2) ->
  (forall s, P s -> P (pendingForRetry c ctx s).2) ->
  forall fuel t r e s, P s -> P (DoHttpRequest_for attempt c ctx fuel t r e s).2.
Proof.
  intros Hattempt Hpending.
  induction fuel as [| fuel IH]; intros t r e s Hs; cbn [DoHttpRequest_for].
  - exact Hs.
  - destruct (t <? MaxRetryTimes (HTTPClient.RetryConfig c))%Z; [| exact Hs].
    unfold bind. specialize (Hattempt s Hs).
    destruct (attempt s) as [[response | err] s1]; cbn [snd] in Hattempt |- *.
    + exact Hattempt.
    + specialize (Hpending s1 Hattempt).
      destruct (pendingForRetry c ctx s1) as [[|] s2]; cbn [snd] in Hpending |- *.
      * apply IH. exact Hpending.
      * exact Hpending.
Qed.

Lemma rebuilt_since_refl env s : rebuilt_since env s s.
Proof.
  split; [reflexivity |]. split; [lia |].
  exists []. rewrite app_nil_r. split; [reflexivity |]. split.
  - intros n q Hin. inversion Hin.
  - intros n q Hn. lia.
Qed.

(** One more attempt, which logged [l]. *)
Lemma rebuilt_since_attempt env s0 s s' l :
  rebuilt_since env s0 s ->
  heap_req s' = heap_req s ->
  attempts s' = S (attempts s) ->
  events s' = events s ++ l ->
  (forall n q, EvDo n q ∈ l ->
     n = attempts s /\ buildHTTPRequest env (heap_req s0) = inl q) ->
  (forall q, buildHTTPRequest env (heap_req s0) = inl q -> EvDo (attempts s) q ∈ l) ->
  rebuilt_since env s0 s'.
Proof.
  intros (Hh & Hle & new & Hev & Hsent & Hall) Hh' Ha' Hev' Hl Hnow.
  split; [congruence |]. split; [lia |].
  exists (new ++ l). split; [rewrite Hev', Hev, app_assoc; reflexivity |]. split.
  - intros n q Hin. apply elem_of_app in Hin as [Hin | Hin].
    + destruct (Hsent n q Hin). split; [lia | assumption].
    + destruct (Hl n q Hin). split; [lia | assumption].
  - intros n q Hn Hq. apply elem_of_app.
    destruct (Nat.eq_dec n (attempts s)) as [-> | Hne].
    + right. apply Hnow. exact Hq.
    + left. apply Hall; [lia | exact Hq].
Qed.

(** A step that makes no attempt and hands nothing to the transport. *)
Lemma rebuilt_since_quiet env s0 s s' l :
  rebuilt_since env s0 s ->
  heap_req s' = heap_req s ->
  attempts s' = attempts s ->
  events s' = events s ++ l ->
  (forall n q, EvDo n q ∉ l) ->
  rebuilt_since env s0 s'.
Proof.
  intros (Hh & Hle & new & Hev & Hsent & Hall) Hh' Ha' Hev' Hl.
  split; [congruence |]. split; [lia |].
  exists (new ++ l). split; [rewrite Hev', Hev, app_assoc; reflexivity |]. split.
  - intros n q Hin. apply elem_of_app in Hin as [Hin | Hin].
    + rewrite Ha'. apply Hsent. exact Hin.
    + destruct (Hl n q Hin).
  - intros n q Hn Hq. apply elem_of_app. left. apply Hall; [lia | exact Hq].
Qed.

Lemma rebuilt_since_pendingForRetry env c ctx s0 s :
  rebuilt_since env s0 s -> rebuilt_since env s0 (pendingForRetry c ctx s).2.
Proof.
  intros H. unfold pendingForRetry.
  destruct (0 <? RetryInterval (HTTPClient.RetryConfig c))%Z; [| exact H].
  unfold bind, next_wait, emit, ret. cbn [fst snd].
  destruct (context.Done ctx (waits s)); cbn [fst snd].
  - apply (rebuilt_since_quiet env s0 s _ [EvDone (waits s)] H); try reflexivity.
    intros n q Hin. apply list_elem_of_singleton in Hin. discriminate.
  - apply (rebuilt_since_quiet env s0 s _
             [EvTimer (waits s) (RetryInterval (HTTPClient.RetryConfig c))] H);
      try reflexivity.
    intros n q Hin. apply list_elem_of_singleton in Hin. discriminate.
Qed.

Lemma rebuilt_since_doHttpRequest env c s0 s :
  rebuilt_since env s0 s ->
  rebuilt_since env s0 (Lenient.doHttpRequest env c s).2.
Proof.
  intros H. pose proof H as (Hh & _).
  unfold Lenient.doHttpRequest, bind, next_attempt, load_req, emit, ret.
  cbn [fst snd heap_req attempts waits events].
  destruct (buildHTTPRequest env (heap_req s)) as [request | err] eqn:Hbuild.
  - rewrite Hh in Hbuild.
    assert (Hone : forall l,
      (forall n q, EvDo n q ∈ EvDo (attempts s) request :: l ->
         EvDo n q = EvDo (attempts s) request) ->
      forall s', heap_req s' = heap_req s -> attempts s' = S (attempts s) ->
      events s' = events s ++ EvDo (attempts s) request :: l ->
      rebuilt_since env s0 s').
    { intros l Hl s' Hh' Ha' Hev'.
      apply (rebuilt_since_attempt env s0 s s' _ H Hh' Ha' Hev').
      - intros n q Hin. specialize (Hl n q Hin). inversion Hl; subst. auto.
      - intros q Hq. rewrite Hbuild in Hq. inversion Hq; subst. left. }
    destruct (Do env (HTTPClient.Client c) (attempts s) request)
      as [err | st h b [err |]]; cbn [fst snd].
    + apply (Hone []); try reflexivity.
      intros n q Hin. apply list_elem_of_singleton in Hin. exact Hin.
    + apply (Hone [EvReadAll (attempts s); EvClose (attempts s)]);
        try reflexivity.
      * intros n q Hin. repeat (apply elem_of_cons in Hin as [Hin | Hin];
          try discriminate; try exact Hin). inversion Hin.
      * cbn [events]. rewrite <- !app_assoc. reflexivity.
    + apply (Hone [EvReadAll (attempts s); EvClose (attempts s)]);
        try reflexivity.
      * intros n q Hin. repeat (apply elem_of_cons in Hin as [Hin | Hin];
          try discriminate; try exact Hin). inversion Hin.
      * cbn [events]. rewrite <- !app_assoc. reflexivity.
  - cbn [fst snd]. rewrite Hh in Hbuild.
    apply (rebuilt_since_attempt env s0 s _ [] H); try reflexivity.
    + cbn [events]. rewrite app_nil_r. reflexivity.
    + intros n q Hin. inversion Hin.
    + intros q Hq. rewrite Hbuild in Hq. discriminate.
Qed.

Lemma options_keep_body (opts : list HTTPOption) :
  (forall opt x, opt ∈ opts -> http.reqBody (opt x) = http.reqBody x) ->
  forall q, http.reqBody (fold_left (fun req opt => opt req) opts q) = http.reqBody q.
Proof.
  induction opts as [| opt opts IH]; intros Hopts q; [reflexivity |].
  cbn [fold_left]. rewrite IH.
  - apply Hopts. left.
  - intros o x Ho. apply Hopts. right. exact Ho.
Qed.

(** The request across a call, whether it builds or not: the [PushRequest]
    is left as it was, and whatever is handed to the transport is what
    [buildHTTPRequest] makes of it. *)
Theorem request_unchanged_and_rebuilt env c ctx s :
  let out := Lenient.DoHttpRequest env c ctx s in
  heap_req out.2 = heap_req s
  /\ (exists new,
       events out.2 = events s ++ new
       /\ (forall n q, EvDo n q ∈ new ->
             attempts s <= n < attempts out.2
             /\ buildHTTPRequest env (heap_req s) = inl q)
       /\ (forall n q, attempts s <= n < attempts out.2 ->
             buildHTTPRequest env (heap_req s) = inl q -> EvDo n q ∈ new))
  /\ (forall q,
       buildHTTPRequest env (heap_req s) = inl q ->
       (forall opt x, opt ∈ PushRequest.Header (heap_req s) ->
          http.reqBody (opt x) = http.reqBody x) ->
       http.reqBody q = PushRequest.Body (heap_req s)).
Proof.
  cbv zeta.
  assert (Hinv : rebuilt_since env s (Lenient.DoHttpRequest env c ctx s).2).
  { unfold Lenient.DoHttpRequest.
    apply (DoHttpRequest_for_invariant (rebuilt_since env s)).
    - intros s1. apply rebuilt_since_doHttpRequest.
    - intros s1. apply rebuilt_since_pendingForRetry.
    - apply rebuilt_since_refl. }
  destruct Hinv as (Hh & _ & Hnew).
  split; [exact Hh |]. split; [exact Hnew |].
  intros q Hq Hopts. unfold buildHTTPRequest, http_NewRequest in Hq.
  destruct (negb (validMethod env _)); [discriminate |].
  destruct (url_Parse env (PushRequest.URL (heap_req s))); [| discriminate].
  inversion Hq; subst q. rewrite options_keep_body by exact Hopts. reflexivity.
Qed.

(** ** Status codes and the retry decision *)

Lemma doHttpRequest_restatus f env c s :
  Lenient.doHttpRequest (restatus f env) c s =
  (response_with_status f (Lenient.doHttpRequest env c s).1,
   (Lenient.doHttpRequest env c s).2).
Proof.
  unfold Lenient.doHttpRequest, bind, next_attempt, load_req, emit, ret.
  cbn [fst snd heap_req attempts].
  change (buildHTTPRequest (restatus f env) (heap_req s))
    with (buildHTTPRequest env (heap_req s)).
  destruct (buildHTTPRequest env (heap_req s)) as [request | err];
    [| reflexivity].
  cbn [restatus Do].
  destruct (Do env (HTTPClient.Client c) (attempts s) request)
    as [err | st h b [err |]]; reflexivity.
Qed.

(** Two attempt functions that fail together, with the same error and the
    same effects, drive the loop through the same iterations. *)
Lemma DoHttpRequest_for_related (g : PushResponse.t -> PushResponse.t)
    attempt attempt' c ctx :
  (forall s, attempt' s =
     (match (attempt s).1 with
      | inl response => inl (g response)
      | inr e => inr e
      end, (attempt s).2)) ->
  forall fuel t e s,
    DoHttpRequest_for attempt' c ctx fuel t None e s =
    (match (DoHttpRequest_for attempt c ctx fuel t None e s).1 with
     | (Some response, e') => (Some (g response), e')
     | (None, e') => (None, e')
     end, (DoHttpRequest_for attempt c ctx fuel t None e s).2).
Proof.
  intros Hrel. induction fuel as [| fuel IH]; intros t e s;
    cbn [DoHttpRequest_for]; [reflexivity |].
  destruct (t <? MaxRetryTimes (HTTPClient.RetryConfig c))%Z; [| reflexivity].
  unfold bind. rewrite Hrel.
  destruct (attempt s) as [[response | err] s1]; cbn [fst snd]; [reflexivity |].
  destruct (pendingForRetry c ctx s1) as [[|] s2]; [| reflexivity].
  apply IH.
Qed.

(** The retry decision does not depend on the status codes received: with
    other codes the same attempts and waits are made, the same events
    logged, and the same result returned but for the code it carries. *)
Lemma status_code_never_inspected f env c ctx s :
  Lenient.DoHttpRequest (restatus f env) c ctx s =
  (match (Lenient.DoHttpRequest env c ctx s).1 with
   | (Some response, e) =>
       (Some {| PushResponse.Status := f (PushResponse.Status response);
                PushResponse.Header := PushResponse.Header response;
                PushResponse.Body := PushResponse.Body response |}, e)
   | (None, e) => (None, e)
   end, (Lenient.DoHttpRequest env c ctx s).2).
Proof.
  unfold Lenient.DoHttpRequest.
  apply (DoHttpRequest_for_related
           (fun response =>
              {| PushResponse.Status := f (PushResponse.Status response);
                 PushResponse.Header := PushResponse.Header response;
                 PushResponse.Body := PushResponse.Body response |})).
  intros s1. rewrite doHttpRequest_restatus. unfold response_with_status.
  reflexivity.
Qed.

(** * Further properties of the code *)

(** ** What one attempt and one wait leave behind *)

Lemma State_eq (s s' : State) :
  heap_req s = heap_req s' -> attempts s = attempts s' ->
  waits s = waits s' -> events s = events s' -> s = s'.
Proof. destruct s, s'; cbn. intros -> -> -> ->. reflexivity. Qed.

Lemma Lenient_doHttpRequest_logs env c :
  attempt_logs (Lenient.doHttpRequest env c) (attempt_events env c trace.zero).
Proof.
  intros s. unfold Lenient.doHttpRequest, attempt_events, exchange_events,
    bind, next_attempt, load_req, emit, ret.
  cbn [fst snd heap_req attempts waits events].
  destruct (buildHTTPRequest env (heap_req s)) as [request | err];
    cbn [fst snd events]; [| rewrite app_nil_r; reflexivity].
  destruct (Do env (HTTPClient.Client c) (attempts s) request)
    as [err | st h b [err |]]; cbn [fst snd events hook_events trace.zero
      trace.GotRequestBody trace.GotResponseStatus trace.GotResponseBody app];
    rewrite <- ?app_assoc; reflexivity.
Qed.

Lemma Strict_doHttpRequest_logs env c ctx :
  attempt_logs (Strict.doHttpRequest env c ctx)
    (attempt_events env c (trace_of ctx)).
Proof.
  intros s. unfold Strict.doHttpRequest, attempt_events, exchange_events,
    trace_of, call_hook, bind, next_attempt, load_req, emit, ret.
  cbn [fst snd heap_req attempts waits events].
  destruct (buildHTTPRequest env (heap_req s)) as [request | err];
    cbn [fst snd events]; [| rewrite app_nil_r; reflexivity].
  destruct (context.Value ctx) as [[[f1 |] [f2 |] [f3 |]] |];
    cbn [trace.zero trace.GotRequestBody trace.GotResponseStatus
         trace.GotResponseBody fst snd events];
    destruct (Do env (HTTPClient.Client c) (attempts s) request)
      as [err | st h b [err |]];
    cbn [fst snd events hook_events app];
    rewrite <- ?app_assoc; cbn [app]; reflexivity.
Qed.

Lemma pendingForRetry_timer c ctx s :
  (0 < RetryInterval (HTTPClient.RetryConfig c))%Z ->
  context.Done ctx (waits s) = false ->
  pendingForRetry c ctx s =
  (true, {| heap_req := heap_req s; attempts := attempts s;
            waits := S (waits s);
            events := events s ++
              [EvTimer (waits s) (RetryInterval (HTTPClient.RetryConfig c))] |}).
Proof.
  intros Hi Hd. unfold pendingForRetry.
  destruct (Z.ltb_spec 0 (RetryInterval (HTTPClient.RetryConfig c))); [| lia].
  unfold bind, next_wait, emit, ret. cbn [fst snd waits]. rewrite Hd.
  reflexivity.
Qed.

Lemma pendingForRetry_done c ctx s :
  (0 < RetryInterval (HTTPClient.RetryConfig c))%Z ->
  context.Done ctx (waits s) = true ->
  pendingForRetry c ctx s =
  (false, {| heap_req := heap_req s; attempts := attempts s;
             waits := S (waits s);
             events := events s ++ [EvDone (waits s)] |}).
Proof.
  intros Hi Hd. unfold pendingForRetry.
  destruct (Z.ltb_spec 0 (RetryInterval (HTTPClient.RetryConfig c))); [| lia].
  unfold bind, next_wait, emit, ret. cbn [fst snd waits]. rewrite Hd.
  reflexivity.
Qed.

(** ** The retry loop and its log, for any attempt function *)

Section retry_loop_log.
Variable attempt : M (PushResponse.t + error).
Variable result_of : PushRequest.t -> nat -> PushResponse.t + error.
Variable events_of : PushRequest.t -> nat -> list Event.
Hypothesis like : attempt_like attempt result_of.
Hypothesis logs : attempt_logs attempt events_of.

Variable c : HTTPClient.t.
Variable ctx : context.Context.

Let N := MaxRetryTimes (HTTPClient.RetryConfig c).
Let interval := RetryInterval (HTTPClient.RetryConfig c).
Let loop := DoHttpRequest_for attempt c ctx.
Let run := loop (Z.to_nat N) 0%Z None None.

Lemma attempt_exact s :
  attempt s =
  (result_of (heap_req s) (attempts s),
   {| heap_req := heap_req s; attempts := S (attempts s); waits := waits s;
      events := events s ++ events_of (heap_req s) (attempts s) |}).
Proof.
  rewrite (surjective_pairing (attempt s)). f_equal.
  - apply (attempt_value _ _ like).
  - apply State_eq; cbn [heap_req attempts waits events].
    + apply (attempt_heap _ _ like).
    + apply (attempt_count _ _ like).
    + apply (attempt_waits _ _ like).
    + apply logs.
Qed.

(** Every failed attempt is followed by a wait when the interval is
    positive, the last one too; a success is followed by none. *)
Lemma loop_waits fuel : forall t e s,
  (0 < interval)%Z ->
  let out := loop fuel t None e s in
  waits out.2 + match out.1.1 with Some _ => 1 | None => 0 end
  = waits s + (attempts out.2 - attempts s).
Proof.
  induction fuel as [| fuel IH]; intros t e s Hi; cbv zeta.
  - subst loop. cbn [DoHttpRequest_for ret fst snd]. lia.
  - destruct (Z.lt_ge_cases t N) as [Hlt | Hge].
    2: { subst loop. rewrite loop_done by assumption. cbn [fst snd]. lia. }
    subst loop. rewrite (loop_step _ _ like) by assumption.
    pose proof (attempt_count _ _ like s) as Hc.
    pose proof (attempt_waits _ _ like s) as Hw.
    destruct (result_of (heap_req s) (attempts s)) as [response | err].
    { cbn [fst snd]. lia. }
    cbv zeta.
    destruct (pendingForRetry_interval c ctx (attempt s).2 Hi)
      as (_ & _ & Hpc & Hpw).
    destruct (pendingForRetry c ctx (attempt s).2) as [[|] s2];
      cbn [fst snd] in Hpc, Hpw |- *.
    + specialize (IH (t + 1)%Z (Some err) s2 Hi). cbv zeta in IH.
      pose proof (loop_last _ _ like c ctx fuel (t + 1)%Z None (Some err) s2)
        as (_ & Hmono & _).
      lia.
    + lia.
Qed.

(** Without a positive interval nothing is awaited and at most one attempt
    is made. *)
Lemma loop_quiet fuel t r e s :
  (interval <= 0)%Z ->
  let out := loop fuel t r e s in
  waits out.2 = waits s /\ attempts out.2 <= S (attempts s).
Proof.
  intros Hi. cbv zeta. subst loop.
  destruct fuel as [| fuel]; [cbn [DoHttpRequest_for ret fst snd]; lia |].
  destruct (Z.lt_ge_cases t N) as [Hlt | Hge].
  - rewrite (loop_no_interval _ _ like) by assumption. cbn [fst snd].
    rewrite (attempt_waits _ _ like), (attempt_count _ _ like). lia.
  - rewrite loop_done by assumption. cbn [fst snd]. lia.
Qed.

Lemma run_at_least_one s :
  (1 <= N)%Z -> S (attempts s) <= attempts (run s).2.
Proof.
  intros HN. subst run loop.
  replace (Z.to_nat N) with (S (Z.to_nat (N - 1))) by lia.
  rewrite (loop_step _ _ like) by lia.
  pose proof (attempt_count _ _ like s) as Hc.
  destruct (result_of (heap_req s) (attempts s)); [cbn [snd]; lia |].
  cbv zeta.
  assert (Hp : attempts (pendingForRetry c ctx (attempt s).2).2
               = attempts (attempt s).2).
  { destruct (Z.lt_ge_cases 0 interval) as [Hi | Hi].
    - apply pendingForRetry_interval. exact Hi.
    - rewrite pendingForRetry_no_interval by (subst interval; lia). reflexivity. }
  destruct (pendingForRetry c ctx (attempt s).2) as [[|] s2];
    cbn [fst snd] in Hp |- *; [| lia].
  pose proof (loop_last _ _ like c ctx (Z.to_nat (N - 1)) (0 + 1)%Z None
                (Some e) s2) as (_ & Hmono & _).
  lia.
Qed.

(** [k] rounds of failure and timer, with the state they end in. *)
Lemma loop_rounds_log k : forall fuel t r e s,
  (0 < interval)%Z ->
  k <= fuel -> (t + Z.of_nat k <= N)%Z ->
  (forall j, j < k -> failed (result_of (heap_req s) (attempts s + j))) ->
  (forall j, j < k -> context.Done ctx (waits s + j) = false) ->
  exists r' e',
    loop fuel t r e s =
    loop (fuel - k) (t + Z.of_nat k)%Z r' e'
      {| heap_req := heap_req s; attempts := attempts s + k;
         waits := waits s + k;
         events := events s ++
           rounds_log events_of (heap_req s) interval (attempts s) (waits s) k |}
    /\ (r', e') =
       match k with
       | 0 => (r, e)
       | S k' => assigned (result_of (heap_req s) (attempts s + k'))
       end.
Proof.
  induction k as [| k IH]; intros fuel t r e s Hi Hk Ht Hfail Htimer.
  - exists r, e. split; [| reflexivity].
    rewrite Nat.sub_0_r, Z.add_0_r. f_equal.
    apply State_eq; cbn [heap_req attempts waits events rounds_log];
      rewrite ?app_nil_r; lia || reflexivity.
  - destruct fuel as [| fuel]; [lia |].
    subst loop. rewrite (loop_step _ _ like) by lia.
    pose proof (Hfail 0 ltac:(lia)) as H0.
    pose proof (Htimer 0 ltac:(lia)) as T0.
    rewrite Nat.add_0_r in H0, T0.
    destruct (result_of (heap_req s) (attempts s)) as [| err] eqn:Hres;
      [destruct H0 |].
    cbv zeta. rewrite attempt_exact. cbn [snd].
    rewrite pendingForRetry_timer by (cbn [waits]; assumption).
    cbn [fst snd heap_req attempts waits events].
    edestruct (IH fuel (t + 1)%Z None (Some err)) as (r' & e' & Heq & Hre);
      [exact Hi | lia | | | |].
    4: { exists r', e'. split.
         - rewrite Heq. cbn [heap_req attempts waits events rounds_log].
           replace (t + 1 + Z.of_nat k)%Z with (t + Z.of_nat (S k))%Z by lia.
           replace (S fuel - S k) with (fuel - k) by lia.
           f_equal. apply State_eq; cbn [heap_req attempts waits events];
             try lia; try reflexivity.
           rewrite <- !app_assoc. reflexivity.
         - rewrite Hre. cbn [heap_req attempts]. destruct k as [| k].
           + rewrite Nat.add_0_r, Hres. reflexivity.
           + do 2 f_equal. lia. }
    + lia.
    + intros j Hj. cbn [heap_req attempts].
      replace (S (attempts s) + j) with (attempts s + S j) by lia.
      apply Hfail. lia.
    + intros j Hj. cbn [waits].
      replace (S (waits s) + j) with (waits s + S j) by lia.
      apply Htimer. lia.
Qed.

(** The state after a call in which the first [k - 1] attempts fail, the
    timer fires after each, and the [k]-th attempt succeeds. *)
Lemma run_scripted_success_state s k response :
  (0 < interval)%Z -> 1 <= k -> (Z.of_nat k <= N)%Z ->
  (forall j, j < k - 1 ->
     failed (result_of (heap_req s) (attempts s + j))) ->
  (forall j, j < k - 1 -> context.Done ctx (waits s + j) = false) ->
  result_of (heap_req s) (attempts s + (k - 1)) = inl response ->
  run s =
  ((Some response, None),
   {| heap_req := heap_req s; attempts := attempts s + k;
      waits := waits s + (k - 1);
      events := events s ++
        rounds_log events_of (heap_req s) interval (attempts s) (waits s) (k - 1)
        ++ events_of (heap_req s) (attempts s + (k - 1)) |}).
Proof.
  intros Hi Hk HkN Hfail Htimer Hres. subst run.
  destruct (loop_rounds_log (k - 1) (Z.to_nat N) 0%Z None None s Hi)
    as (r' & e' & Heq & _); auto; try lia.
  rewrite Heq.
  replace (Z.to_nat N - (k - 1)) with (S (Z.to_nat N - k)) by lia.
  subst loop. rewrite (loop_step _ _ like) by lia.
  cbn [heap_req attempts]. rewrite Hres, attempt_exact.
  cbn [snd heap_req attempts waits events]. f_equal.
  apply State_eq; cbn [heap_req attempts waits events]; try lia; try reflexivity.
  rewrite <- app_assoc. reflexivity.
Qed.

(** The state after a call in which every attempt fails and every timer
    fires: [N] rounds, the last wait included. *)
Lemma run_all_fail_state s :
  (1 <= N)%Z -> (0 < interval)%Z ->
  (forall j, j < Z.to_nat N ->
     failed (result_of (heap_req s) (attempts s + j))) ->
  (forall j, j < Z.to_nat N -> context.Done ctx (waits s + j) = false) ->
  run s =
  (assigned (result_of (heap_req s) (attempts s + (Z.to_nat N - 1))),
   {| heap_req := heap_req s; attempts := attempts s + Z.to_nat N;
      waits := waits s + Z.to_nat N;
      events := events s ++
        rounds_log events_of (heap_req s) interval (attempts s) (waits s)
          (Z.to_nat N) |}).
Proof.
  intros HN Hi Hfail Htimer. subst run.
  destruct (loop_rounds_log (Z.to_nat N) (Z.to_nat N) 0%Z None None s Hi)
    as (r' & e' & Heq & Hre); auto; try lia.
  rewrite Heq. subst loop. rewrite loop_done by (subst N; lia).
  rewrite Hre. destruct (Z.to_nat N) as [| n] eqn:Hn; [lia |].
  replace (S n - 1) with n by lia. reflexivity.
Qed.

(** The state after a call cancelled in the wait after the [k]-th failed
    attempt. *)
Lemma run_cancelled_state s k err :
  (0 < interval)%Z -> 1 <= k -> (Z.of_nat k <= N)%Z ->
  (forall j, j < k - 1 ->
     failed (result_of (heap_req s) (attempts s + j))) ->
  (forall j, j < k - 1 -> context.Done ctx (waits s + j) = false) ->
  result_of (heap_req s) (attempts s + (k - 1)) = inr err ->
  context.Done ctx (waits s + (k - 1)) = true ->
  run s =
  ((None, Some err),
   {| heap_req := heap_req s; attempts := attempts s + k;
      waits := waits s + k;
      events := events s ++
        rounds_log events_of (heap_req s) interval (attempts s) (waits s) (k - 1)
        ++ events_of (heap_req s) (attempts s + (k - 1))
        ++ [EvDone (waits s + (k - 1))] |}).
Proof.
  intros Hi Hk HkN Hfail Htimer Hres Hdone. subst run.
  destruct (loop_rounds_log (k - 1) (Z.to_nat N) 0%Z None None s Hi)
    as (r' & e' & Heq & _); auto; try lia.
  rewrite Heq.
  replace (Z.to_nat N - (k - 1)) with (S (Z.to_nat N - k)) by lia.
  subst loop. rewrite (loop_step _ _ like) by lia.
  cbn [heap_req attempts]. rewrite Hres. cbv zeta. rewrite attempt_exact.
  cbn [snd heap_req attempts waits events].
  rewrite pendingForRetry_done by (cbn [waits]; assumption).
  cbn [fst snd heap_req attempts waits events]. f_equal.
  apply State_eq; cbn [heap_req attempts waits events]; try lia; try reflexivity.
  rewrite <- !app_assoc. reflexivity.
Qed.
End retry_loop_log.

(** ** Bounds and shape of every call *)

Section every_call.
Variable attempt : M (PushResponse.t + error).
Variable result_of : PushRequest.t -> nat -> PushResponse.t + error.
Hypothesis like : attempt_like attempt result_of.
Variable c : HTTPClient.t.
Variable ctx : context.Context.

Let N := MaxRetryTimes (HTTPClient.RetryConfig c).
Let interval := RetryInterval (HTTPClient.RetryConfig c).
Let run := DoHttpRequest_for attempt c ctx (Z.to_nat N) 0%Z None None.

Lemma run_bounds s :
  attempts s <= attempts (run s).2
  /\ (Z.of_nat (attempts (run s).2 - attempts s) <= Z.max 0 N)%Z
  /\ waits s <= waits (run s).2
  /\ waits (run s).2 - waits s <= attempts (run s).2 - attempts s.
Proof.
  subst run.
  pose proof (loop_last _ _ like c ctx (Z.to_nat N) 0%Z None None s)
    as (_ & H2 & H3 & H4 & _).
  rewrite Z.sub_0_r in H3. fold N in H3.
  split; [lia |]. split; [exact H3 |].
  destruct (Z.lt_ge_cases 0 interval) as [Hi | Hi].
  - pose proof (loop_waits _ _ like c ctx (Z.to_nat N) 0%Z None s Hi) as Hw.
    cbv zeta in Hw.
    destruct ((DoHttpRequest_for attempt c ctx (Z.to_nat N) 0%Z None None s).1.1)
      eqn:Hr.
    + assert (attempts (DoHttpRequest_for attempt c ctx (Z.to_nat N) 0%Z
                None None s).2 <> attempts s).
      { intros Heq. destruct (H4 Heq) as (Hnone & _).
        rewrite Hnone in Hr. discriminate. }
      lia.
    + lia.
  - pose proof (loop_quiet _ _ like c ctx (Z.to_nat N) 0%Z None None s
                  ltac:(subst interval; lia)) as (Hw & _).
    lia.
Qed.

Lemma run_result_is_last s :
  (1 <= N)%Z ->
  S (attempts s) <= attempts (run s).2
  /\ (run s).1 = assigned (result_of (heap_req s) (attempts (run s).2 - 1))
  /\ (forall j, attempts s <= j < attempts (run s).2 - 1 ->
      failed (result_of (heap_req s) j)).
Proof.
  intros HN. subst run.
  pose proof (run_at_least_one _ _ like c ctx s HN) as Hone.
  pose proof (loop_last _ _ like c ctx (Z.to_nat N) 0%Z None None s)
    as (_ & _ & _ & _ & H5 & H6).
  split; [exact Hone |]. split; [apply H5; exact Hone | exact H6].
Qed.

Lemma run_waits s :
  (0 < interval)%Z ->
  waits (run s).2 + match (run s).1.1 with Some _ => 1 | None => 0 end
  = waits s + (attempts (run s).2 - attempts s).
Proof. intros Hi. subst run. apply (loop_waits _ _ like c ctx). exact Hi. Qed.

Lemma run_first_success s response :
  (1 <= N)%Z ->
  result_of (heap_req s) (attempts s) = inl response ->
  (run s).1 = (Some response, None)
  /\ attempts (run s).2 = S (attempts s)
  /\ waits (run s).2 = waits s.
Proof.
  intros HN Hres. subst run.
  replace (Z.to_nat N) with (S (Z.to_nat (N - 1))) by lia.
  rewrite (loop_step _ _ like) by lia. rewrite Hres. cbn [fst snd].
  rewrite (attempt_count _ _ like), (attempt_waits _ _ like). auto.
Qed.
End every_call.

(** X1: a call never makes more attempts than [MaxRetryTimes] (none when it
    is not positive), and never enters more waits than it makes attempts. *)
Theorem attempts_never_exceed_MaxRetryTimes env c ctx s :
  (let out := Lenient.DoHttpRequest env c ctx s in
   attempts s <= attempts out.2
   /\ (Z.of_nat (attempts out.2 - attempts s)
       <= Z.max 0 (MaxRetryTimes (HTTPClient.RetryConfig c)))%Z
   /\ waits s <= waits out.2
   /\ waits out.2 - waits s <= attempts out.2 - attempts s)
  /\ (let out := Strict.DoHttpRequest env c ctx s in
   attempts s <= attempts out.2
   /\ (Z.of_nat (attempts out.2 - attempts s)
       <= Z.max 0 (MaxRetryTimes (HTTPClient.RetryConfig c)))%Z
   /\ waits s <= waits out.2
   /\ waits out.2 - waits s <= attempts out.2 - attempts s).
Proof.
  split; cbv zeta.
  - exact (run_bounds _ _ (Lenient_doHttpRequest_like env c) c ctx s).
  - exact (run_bounds _ _ (Strict_doHttpRequest_like env c ctx) c ctx s).
Qed.

(** X2: with [MaxRetryTimes >= 1] a call makes at least one attempt and
    returns what its last attempt returned, a response or an error and never
    both or neither; every attempt before the last one failed and its error
    is dropped. *)
Theorem result_is_the_last_attempt env c ctx s :
  (1 <= MaxRetryTimes (HTTPClient.RetryConfig c))%Z ->
  (let out := Lenient.DoHttpRequest env c ctx s in
   S (attempts s) <= attempts out.2
   /\ out.1 = assigned
        (Lenient.attempt_result env c (heap_req s) (attempts out.2 - 1))
   /\ (forall j, attempts s <= j < attempts out.2 - 1 ->
       failed (Lenient.attempt_result env c (heap_req s) j)))
  /\ (let out := Strict.DoHttpRequest env c ctx s in
   S (attempts s) <= attempts out.2
   /\ out.1 = assigned
        (Strict.attempt_result env c ctx (heap_req s) (attempts out.2 - 1))
   /\ (forall j, attempts s <= j < attempts out.2 - 1 ->
       failed (Strict.attempt_result env c ctx (heap_req s) j))).
Proof.
  intros HN. split; cbv zeta.
  - exact (run_result_is_last _ _ (Lenient_doHttpRequest_like env c) c ctx s HN).
  - exact (run_result_is_last _ _ (Strict_doHttpRequest_like env c ctx) c ctx s HN).
Qed.

Lemma result_is_the_last_attempt_witness :
  let e := Fixture.env (Fixture.served_at 1 404) in
  let c := Fixture.client 3%Z 5%Z in
  let out := Lenient.DoHttpRequest e c Fixture.never_cancelled (Fixture.start e) in
  1 <= attempts out.2
  /\ out.1 = assigned (Lenient.attempt_result e c (Fixture.request e)
                         (attempts out.2 - 1))
  /\ (forall j, 0 <= j < attempts out.2 - 1 ->
      failed (Lenient.attempt_result e c (Fixture.request e) j)).
Proof.
  intros e c.
  refine (proj1 (result_is_the_last_attempt e c Fixture.never_cancelled
                   (Fixture.start e) _)).
  discriminate.
Defined.

(** X3: with a positive interval every failed attempt is followed by one
    wait, the last attempt of the call included, and a successful attempt by
    none: the waits entered are the attempts made, less one when the call
    returns a response. *)
Theorem every_failure_is_followed_by_a_wait env c ctx s :
  (0 < RetryInterval (HTTPClient.RetryConfig c))%Z ->
  (let out := Lenient.DoHttpRequest env c ctx s in
   waits out.2 + match out.1.1 with Some _ => 1 | None => 0 end
   = waits s + (attempts out.2 - attempts s))
  /\ (let out := Strict.DoHttpRequest env c ctx s in
   waits out.2 + match out.1.1 with Some _ => 1 | None => 0 end
   = waits s + (attempts out.2 - attempts s)).
Proof.
  intros Hi. split; cbv zeta.
  - exact (run_waits _ _ (Lenient_doHttpRequest_like env c) c ctx s Hi).
  - exact (run_waits _ _ (Strict_doHttpRequest_like env c ctx) c ctx s Hi).
Qed.

(** A client allowed one attempt still waits the interval after it fails. *)
Lemma every_failure_is_followed_by_a_wait_witness :
  let e := Fixture.env Fixture.always_refused in
  let out := Lenient.DoHttpRequest e (Fixture.client 1%Z 5%Z)
               Fixture.never_cancelled (Fixture.start e) in
  waits out.2 + match out.1.1 with Some _ => 1 | None => 0 end
  = 0 + (attempts out.2 - 0).
Proof.
  intros e.
  refine (proj1 (every_failure_is_followed_by_a_wait e (Fixture.client 1%Z 5%Z)
                   Fixture.never_cancelled (Fixture.start e) _)).
  reflexivity.
Defined.

(** X4: when the first attempt of a call succeeds ([MaxRetryTimes >= 1]),
    the call makes that one attempt, enters no wait whatever the interval,
    and returns its response. *)
Theorem first_attempt_success_is_immediate env c ctx s :
  (1 <= MaxRetryTimes (HTTPClient.RetryConfig c))%Z ->
  (forall response,
     Lenient.attempt_result env c (heap_req s) (attempts s) = inl response ->
     let out := Lenient.DoHttpRequest env c ctx s in
     out.1 = (Some response, None)
     /\ attempts out.2 = S (attempts s)
     /\ waits out.2 = waits s)
  /\ (forall response,
     Strict.attempt_result env c ctx (heap_req s) (attempts s) = inl response ->
     let out := Strict.DoHttpRequest env c ctx s in
     out.1 = (Some response, None)
     /\ attempts out.2 = S (attempts s)
     /\ waits out.2 = waits s).
Proof.
  intros HN. split; intros response Hres; cbv zeta.
  - exact (run_first_success _ _ (Lenient_doHttpRequest_like env c) c ctx s
             response HN Hres).
  - exact (run_first_success _ _ (Strict_doHttpRequest_like env c ctx) c ctx s
             response HN Hres).
Qed.

Lemma first_attempt_success_is_immediate_witness :
  let e := Fixture.env (Fixture.served_at 0 500) in
  let out := Lenient.DoHttpRequest e (Fixture.client 3%Z 0%Z)
               Fixture.never_cancelled (Fixture.start e) in
  out.1 = (Some {| PushResponse.Status := 500;
                   PushResponse.Header := ∅;
                   PushResponse.Body := [x6f; x6b] |}, None)
  /\ attempts out.2 = 1
  /\ waits out.2 = 0.
Proof.
  intros e.
  refine (proj1 (first_attempt_success_is_immediate e (Fixture.client 3%Z 0%Z)
                   Fixture.never_cancelled (Fixture.start e) _) _ _).
  - discriminate.
  - reflexivity.
Defined.

(** ** A request that does not build *)

Lemma pendingForRetry_log c ctx s :
  heap_req (pendingForRetry c ctx s).2 = heap_req s
  /\ exists l, events (pendingForRetry c ctx s).2 = events s ++ l
     /\ Forall (fun e => is_wait e = true) l.
Proof.
  unfold pendingForRetry.
  destruct (0 <? RetryInterval (HTTPClient.RetryConfig c))%Z.
  - unfold bind, next_wait, emit, ret. cbn [fst snd].
    destruct (context.Done ctx (waits s)); cbn [fst snd heap_req events];
      (split; [reflexivity |]); eexists; (split; [reflexivity |]);
      repeat constructor.
  - split; [reflexivity |]. exists []. rewrite app_nil_r. split; constructor.
Qed.

Lemma run_only_waits attempt result_of events_of c ctx s :
  attempt_like attempt result_of ->
  attempt_logs attempt events_of ->
  (forall n, events_of (heap_req s) n = []) ->
  exists new,
    events (DoHttpRequest_for attempt c ctx
              (Z.to_nat (MaxRetryTimes (HTTPClient.RetryConfig c))) 0%Z
              None None s).2 = events s ++ new
    /\ Forall (fun e => is_wait e = true) new.
Proof.
  intros like logs Hquiet.
  pose (P := fun s' : State =>
    heap_req s' = heap_req s
    /\ exists new, events s' = events s ++ new
       /\ Forall (fun e => is_wait e = true) new).
  assert (HP : P (DoHttpRequest_for attempt c ctx
              (Z.to_nat (MaxRetryTimes (HTTPClient.RetryConfig c))) 0%Z
              None None s).2).
  { apply DoHttpRequest_for_invariant.
    - intros s1 (Hh & new & Hev & Hnew). split.
      + rewrite (attempt_heap _ _ like). exact Hh.
      + exists new. rewrite logs, Hh, Hquiet, app_nil_r. auto.
    - intros s1 (Hh & new & Hev & Hnew).
      destruct (pendingForRetry_log c ctx s1) as (Hh' & l & Hl & Hwait).
      split; [congruence |].
      exists (new ++ l). rewrite Hl, Hev, app_assoc. split; [reflexivity |].
      apply Forall_app. auto.
    - split; [reflexivity |]. exists []. rewrite app_nil_r. split; constructor. }
  exact (proj2 HP).
Qed.

Lemma attempt_result_build_error env c r n err :
  buildHTTPRequest env r = inr err ->
  Lenient.attempt_result env c r n = inr err.
Proof. intros H. rewrite Lenient_attempt_result_unfold, H. reflexivity. Qed.

Lemma attempt_events_build_error env c tr r n err :
  buildHTTPRequest env r = inr err -> attempt_events env c tr r n = [].
Proof. intros H. unfold attempt_events. rewrite H. reflexivity. Qed.

(** X5: a request that [buildHTTPRequest] rejects is still retried: each
    attempt fails with the builder's error before anything is sent, so the
    call returns that error, its log holds nothing but waits, and with a
    positive interval and no cancellation all [MaxRetryTimes] attempts are
    spent on it. *)
Theorem malformed_request_is_retried_unsent env c ctx s err :
  buildHTTPRequest env (heap_req s) = inr err ->
  (1 <= MaxRetryTimes (HTTPClient.RetryConfig c))%Z ->
  (let out := Lenient.DoHttpRequest env c ctx s in
   out.1 = (None, Some err)
   /\ (exists new, events out.2 = events s ++ new
        /\ Forall (fun e => is_wait e = true) new)
   /\ ((0 < RetryInterval (HTTPClient.RetryConfig c))%Z ->
       (forall w, context.Done ctx w = false) ->
       attempts out.2
       = attempts s + Z.to_nat (MaxRetryTimes (HTTPClient.RetryConfig c))))
  /\ (let out := Strict.DoHttpRequest env c ctx s in
   out.1 = (None, Some err)
   /\ (exists new, events out.2 = events s ++ new
        /\ Forall (fun e => is_wait e = true) new)
   /\ ((0 < RetryInterval (HTTPClient.RetryConfig c))%Z ->
       (forall w, context.Done ctx w = false) ->
       attempts out.2
       = attempts s + Z.to_nat (MaxRetryTimes (HTTPClient.RetryConfig c)))).
Proof.
  intros Hbuild HN. split; cbv zeta.
  - pose proof (Lenient_doHttpRequest_like env c) as like.
    split; [| split].
    + destruct (run_result_is_last _ _ like c ctx s HN) as (_ & Hr & _).
      unfold Lenient.DoHttpRequest. rewrite Hr.
      rewrite (attempt_result_build_error _ _ _ _ err Hbuild). reflexivity.
    + apply (run_only_waits _ _ _ c ctx s like (Lenient_doHttpRequest_logs env c)).
      intros n. apply (attempt_events_build_error _ _ _ _ _ err Hbuild).
    + intros Hi Hctx.
      apply (run_all_fail _ _ like c ctx s HN Hi); [| auto].
      intros j _. rewrite (attempt_result_build_error _ _ _ _ err Hbuild).
      exact I.
  - pose proof (Strict_doHttpRequest_like env c ctx) as like.
    assert (Hres : forall n, Strict.attempt_result env c ctx (heap_req s) n = inr err).
    { intros n. rewrite Strict_attempt_result_Lenient.
      apply attempt_result_build_error. exact Hbuild. }
    split; [| split].
    + destruct (run_result_is_last _ _ like c ctx s HN) as (_ & Hr & _).
      unfold Strict.DoHttpRequest. rewrite Hr, Hres. reflexivity.
    + apply (run_only_waits _ _ _ c ctx s like (Strict_doHttpRequest_logs env c ctx)).
      intros n. apply (attempt_events_build_error _ _ _ _ _ err Hbuild).
    + intros Hi Hctx.
      apply (run_all_fail _ _ like c ctx s HN Hi); [| auto].
      intros j _. rewrite Hres. exact I.
Qed.

Lemma malformed_request_is_retried_unsent_witness :
  let e := Fixture.env (Fixture.served_at 0 200) in
  let bad :=
    {| PushRequest.Method := "BAD METHOD";
       PushRequest.URL := "push-api.cloud.huawei.com";
       PushRequest.Body := None;
       PushRequest.Header := [] |} in
  let c := Fixture.client 3%Z 5%Z in
  let out := Lenient.DoHttpRequest e c Fixture.never_cancelled (at_attempt bad 0) in
  out.1 = (None, Some "net/http: invalid method BAD METHOD")
  /\ (exists new, events out.2 = [] ++ new
        /\ Forall (fun ev => is_wait ev = true) new)
  /\ ((0 < 5)%Z ->
      (forall w, context.Done Fixture.never_cancelled w = false) ->
      attempts out.2 = 0 + 3).
Proof.
  intros e bad c.
  refine (proj1 (malformed_request_is_retried_unsent e c Fixture.never_cancelled
                   (at_attempt bad 0) "net/http: invalid method BAD METHOD" _ _)).
  - reflexivity.
  - discriminate.
Defined.

(** ** The trace hooks *)

Lemma flat_map_seq_shift {A} (f : nat -> list A) k : forall start,
  flat_map f (seq (S start) k) = flat_map (fun j => f (S j)) (seq start k).
Proof.
  induction k as [| k IH]; intros start; [reflexivity |].
  cbn [seq flat_map]. rewrite IH. reflexivity.
Qed.

(** The log of [k] rounds in which the transport gives no response, with
    the three hooks set. *)
Lemma rounds_log_no_response env c fr fb fs r d request k : forall a w,
  buildHTTPRequest env r = inl request ->
  (forall j, j < k ->
     exists e, Do env (HTTPClient.Client c) (a + j) request = http.DoErr e) ->
  rounds_log
    (attempt_events env c
       {| trace.GotRequestBody := Some fr; trace.GotResponseBody := Some fb;
          trace.GotResponseStatus := Some fs |}) r d a w k
  = flat_map
      (fun j => [EvHook (fr (PushRequest.Body r)); EvDo (a + j) request;
                 EvTimer (w + j) d])
      (seq 0 k).
Proof.
  induction k as [| k IH]; intros a w Hbuild Hdo; [reflexivity |].
  cbn [rounds_log seq flat_map]. rewrite flat_map_seq_shift.
  destruct (Hdo 0 ltac:(lia)) as (e & He). rewrite Nat.add_0_r in He.
  unfold attempt_events at 1, exchange_events. rewrite Hbuild, He.
  cbn [hook_events trace.GotRequestBody app]. rewrite !Nat.add_0_r.
  do 3 f_equal. rewrite IH; [| exact Hbuild |].
  - apply flat_map_ext. intros j. do 2 f_equal; [f_equal; lia |].
    do 2 f_equal. lia.
  - intros j Hj. replace (S a + j) with (a + S j) by lia. apply Hdo. lia.
Qed.

(** X8: the log of a call whose first [k - 1] attempts get no response and
    whose [k]-th attempt is answered, with the three hooks set.  Each attempt
    calls the request-body hook and then sends; a timer follows each
    unanswered attempt; the answered attempt calls the status hook, reads the
    body, calls the body hook and closes.  The status and body hooks are
    called for the answered attempt only. *)
Theorem hooks_of_a_retried_call env c ctx s k request fr fb fs
    status header body :
  context.Value ctx =
    Some {| trace.GotRequestBody := Some fr; trace.GotResponseBody := Some fb;
            trace.GotResponseStatus := Some fs |} ->
  buildHTTPRequest env (heap_req s) = inl request ->
  (0 < RetryInterval (HTTPClient.RetryConfig c))%Z ->
  1 <= k -> (Z.of_nat k <= MaxRetryTimes (HTTPClient.RetryConfig c))%Z ->
  (forall j, j < k - 1 -> context.Done ctx (waits s + j) = false) ->
  (forall j, j < k - 1 ->
     exists e,
       Do env (HTTPClient.Client c) (attempts s + j) request = http.DoErr e) ->
  Do env (HTTPClient.Client c) (attempts s + (k - 1)) request
    = http.DoResp status header body None ->
  events (Strict.DoHttpRequest env c ctx s).2
  = events s
    ++ flat_map
         (fun j => [EvHook (fr (PushRequest.Body (heap_req s)));
                    EvDo (attempts s + j) request;
                    EvTimer (waits s + j)
                      (RetryInterval (HTTPClient.RetryConfig c))])
         (seq 0 (k - 1))
    ++ [EvHook (fr (PushRequest.Body (heap_req s)));
        EvDo (attempts s + (k - 1)) request;
        EvHook (fs status);
        EvReadAll (attempts s + (k - 1));
        EvHook (fb body);
        EvClose (attempts s + (k - 1))].
Proof.
  intros Hctx Hbuild Hi Hk HkN Htimer Herr Hresp.
  assert (Htr : trace_of ctx =
    {| trace.GotRequestBody := Some fr; trace.GotResponseBody := Some fb;
       trace.GotResponseStatus := Some fs |}).
  { unfold trace_of. rewrite Hctx. reflexivity. }
  pose proof (run_scripted_success_state _ _ _
                (Strict_doHttpRequest_like env c ctx)
                (Strict_doHttpRequest_logs env c ctx) c ctx s k
                {| PushResponse.Status := status; PushResponse.Header := header;
                   PushResponse.Body := body |} Hi Hk HkN) as Hrun.
  unfold Strict.DoHttpRequest. rewrite Hrun; clear Hrun.
  - cbn [snd events]. rewrite Htr.
    rewrite (rounds_log_no_response env c fr fb fs _ _ request) by assumption.
    unfold attempt_events, exchange_events. rewrite Hbuild, Hresp.
    reflexivity.
  - intros j Hj. rewrite Strict_attempt_result_Lenient,
      Lenient_attempt_result_unfold, Hbuild.
    destruct (Herr j Hj) as (e & ->). exact I.
  - exact Htimer.
  - rewrite Strict_attempt_result_Lenient, Lenient_attempt_result_unfold,
      Hbuild, Hresp. reflexivity.
Qed.

(** Retry three times at most, every ten milliseconds; the transport fails
    twice and then answers. *)
Lemma hooks_of_a_retried_call_witness :
  let e := Fixture.env (Fixture.served_at 2 200) in
  let ctx :=
    {| context.Done := fun _ => false;
       context.Value :=
         Some {| trace.GotRequestBody := Some (fun _ => "request body");
                 trace.GotResponseBody := Some (fun _ => "response body");
                 trace.GotResponseStatus := Some (fun st => pretty st) |} |} in
  let request :=
    fold_left (fun req opt => opt req) (PushRequest.Header (Fixture.request e))
      {| http.reqMethod := "POST";
         http.reqURL := {| url.Scheme := "https";
                           url.Host := "push-api.cloud.huawei.com";
                           url.Path := "" |};
         http.reqHeader := ∅;
         http.reqBody := Some [x7b; x7d] |} in
  events (Strict.DoHttpRequest e (Fixture.client 3%Z 10000000%Z) ctx
            (Fixture.start e)).2
  = [] ++ flat_map
            (fun j => [EvHook "request body"; EvDo (0 + j) request;
                       EvTimer (0 + j) 10000000%Z])
            (seq 0 2)
       ++ [EvHook "request body"; EvDo 2 request; EvHook "200"; EvReadAll 2;
           EvHook "response body"; EvClose 2].
Proof.
  intros e ctx request.
  refine (hooks_of_a_retried_call e (Fixture.client 3%Z 10000000%Z) ctx
            (Fixture.start e) 3 request (fun _ => "request body")
            (fun _ => "response body") (fun st => pretty st)
            200%Z ∅ [x6f; x6b] _ _ _ _ _ _ _ _).
  - reflexivity.
  - reflexivity.
  - reflexivity.
  - repeat constructor.
  - discriminate.
  - intros j Hj. reflexivity.
  - intros j Hj. exists (pretty j). cbn.
    unfold Fixture.served_at.
    destruct (Nat.ltb_spec j 2) as [_ | Hge]; [reflexivity |].
    exfalso. apply (Nat.lt_irrefl 2).
    apply (Nat.le_lt_trans _ j); [exact Hge | exact Hj].
  - reflexivity.
Defined.

(** ** Release of the response body *)

Lemma reads_of_app n l l' : reads_of n (l ++ l') = reads_of n l + reads_of n l'.
Proof. unfold reads_of. rewrite List.filter_app, length_app. reflexivity. Qed.

Lemma closes_of_app n l l' : closes_of n (l ++ l') = closes_of n l + closes_of n l'.
Proof. unfold closes_of. rewrite List.filter_app, length_app. reflexivity. Qed.

Lemma hook_events_no_read_close {A} (hook : option (A -> string)) (a : A) n :
  reads_of n (hook_events hook a) = 0 /\ closes_of n (hook_events hook a) = 0.
Proof. destruct hook; split; reflexivity. Qed.

Lemma waits_no_read_close n l :
  Forall (fun e => is_wait e = true) l -> reads_of n l = 0 /\ closes_of n l = 0.
Proof.
  induction 1 as [| e l He _ (IHr & IHc)]; [split; reflexivity |].
  destruct e; try discriminate; split; assumption.
Qed.

(** A log is well closed for attempt [n] when no prefix of it closes the
    body of [n] more often than it has read it. *)
Lemma well_closed_extend n new l :
  (forall l1 l2, new = l1 ++ l2 -> closes_of n l1 <= reads_of n l1) ->
  (forall l1 l2, l = l1 ++ l2 -> closes_of n l1 <= reads_of n l1) ->
  forall l1 l2, new ++ l = l1 ++ l2 -> closes_of n l1 <= reads_of n l1.
Proof.
  intros Hnew Hl l1 l2 Heq.
  apply List.app_eq_app in Heq as (m & [(-> & Hm) | (-> & Hm)]).
  - eapply Hnew. reflexivity.
  - rewrite closes_of_app, reads_of_app.
    pose proof (Hnew new [] ltac:(rewrite app_nil_r; reflexivity)).
    pose proof (Hl m l2 Hm). lia.
Qed.

(** In the log of one attempt the body is read once and then closed once
    when the transport handed back an envelope, and neither read nor closed
    otherwise. *)
Lemma attempt_events_read_then_close env c tr r m n :
  let l := attempt_events env c tr r m in
  closes_of n l = reads_of n l
  /\ reads_of n l <= 1
  /\ (reads_of n l = 1 <-> n = m /\ got_envelope env c r m)
  /\ (forall l1 l2, l = l1 ++ l2 -> closes_of n l1 <= reads_of n l1).
Proof.
  cbv zeta. unfold attempt_events, exchange_events, got_envelope.
  destruct (buildHTTPRequest env r) as [request | err] eqn:Hbuild.
  2: { split; [reflexivity |]. split; [cbn; lia |]. split.
       - split; [cbn; discriminate |].
         intros (_ & q & st & h & b & re & Hq & _). discriminate.
       - intros l1 l2 Heq. symmetry in Heq.
         apply app_eq_nil in Heq as (-> & _). cbn. lia. }
  destruct (hook_events_no_read_close (trace.GotRequestBody tr)
              (PushRequest.Body r) n) as (Hr1 & Hc1).
  destruct (Do env (HTTPClient.Client c) m request)
    as [err | st h b re] eqn:Hdo.
  - assert (Hr : reads_of n (hook_events (trace.GotRequestBody tr)
                               (PushRequest.Body r) ++ [EvDo m request]) = 0)
      by (rewrite reads_of_app, Hr1; reflexivity).
    assert (Hc : closes_of n (hook_events (trace.GotRequestBody tr)
                                (PushRequest.Body r) ++ [EvDo m request]) = 0)
      by (rewrite closes_of_app, Hc1; reflexivity).
    rewrite Hr, Hc. split; [reflexivity |]. split; [lia |]. split.
    + split; [discriminate |].
      intros (_ & q & st & h & b & re & Hq & Hd).
      inversion Hq; subst q. rewrite Hdo in Hd. discriminate.
    + intros l1 l2 Heq.
      assert (closes_of n l1 <= 0); [| lia].
      rewrite <- Hc, Heq, closes_of_app. lia.
  - destruct (hook_events_no_read_close (trace.GotResponseStatus tr) st n)
      as (Hr2 & Hc2).
    set (hb := match re with
               | Some _ => []
               | None => hook_events (trace.GotResponseBody tr) b
               end).
    assert (Hb : reads_of n hb = 0 /\ closes_of n hb = 0).
    { subst hb. destruct re; [split; reflexivity |].
      apply hook_events_no_read_close. }
    destruct Hb as (Hr3 & Hc3).
    set (before :=
      hook_events (trace.GotRequestBody tr) (PushRequest.Body r)
      ++ EvDo m request
         :: hook_events (trace.GotResponseStatus tr) st
         ++ EvReadAll m :: hb).
    assert (Hshape :
      hook_events (trace.GotRequestBody tr) (PushRequest.Body r)
      ++ EvDo m request
         :: hook_events (trace.GotResponseStatus tr) st
         ++ EvReadAll m :: hb ++ [EvClose m]
      = before ++ [EvClose m]).
    { subst before. rewrite <- app_assoc. cbn [app]. rewrite <- app_assoc.
      reflexivity. }
    rewrite Hshape.
    assert (Hrb : reads_of n before = if Nat.eqb m n then 1 else 0).
    { subst before. rewrite reads_of_app, Hr1.
      change (reads_of n (EvDo m request
                :: hook_events (trace.GotResponseStatus tr) st
                   ++ EvReadAll m :: hb))
        with (reads_of n (hook_events (trace.GotResponseStatus tr) st
                ++ EvReadAll m :: hb)).
      rewrite reads_of_app, Hr2. unfold reads_of at 1. cbn [List.filter is_read].
      destruct (Nat.eqb m n); cbn [length]; fold (reads_of n hb); lia. }
    assert (Hcb : closes_of n before = 0).
    { subst before. rewrite closes_of_app, Hc1.
      change (closes_of n (EvDo m request
                :: hook_events (trace.GotResponseStatus tr) st
                   ++ EvReadAll m :: hb))
        with (closes_of n (hook_events (trace.GotResponseStatus tr) st
                ++ EvReadAll m :: hb)).
      rewrite closes_of_app, Hc2.
      change (closes_of n (EvReadAll m :: hb)) with (closes_of n hb). lia. }
    assert (Hcl : closes_of n [EvClose m] = if Nat.eqb m n then 1 else 0).
    { unfold closes_of. cbn. destruct (Nat.eqb m n); reflexivity. }
    rewrite closes_of_app, reads_of_app, Hrb, Hcb, Hcl.
    change (reads_of n [EvClose m]) with 0.
    assert (Hgot : exists q st' h' b' re',
              (inl request : http.Request + error) = inl q
              /\ Do env (HTTPClient.Client c) m q = http.DoResp st' h' b' re').
    { exists request, st, h, b, re. auto. }
    assert (Hprefix : forall l1 l2,
              before ++ [EvClose m] = l1 ++ l2 ->
              closes_of n l1 <= reads_of n l1).
    { intros l1 l2 Heq. destruct l2 as [| y l2 _] using rev_ind.
      - rewrite app_nil_r in Heq. subst l1.
        rewrite closes_of_app, reads_of_app, Hrb, Hcb, Hcl.
        change (reads_of n [EvClose m]) with 0. lia.
      - rewrite app_assoc in Heq. apply app_inj_tail in Heq as (Heq & _).
        assert (closes_of n l1 <= 0); [| lia].
        rewrite <- Hcb, Heq, closes_of_app. lia. }
    destruct (Nat.eqb_spec m n) as [-> | Hne].
    + split; [lia |]. split; [lia |]. split; [| exact Hprefix].
      split; [intros _; auto | intros _; lia].
    + split; [lia |]. split; [lia |]. split; [| exact Hprefix].
      split; [intros H; lia | intros (Hn & _); congruence].
Qed.

Lemma run_read_then_close env c tr attempt result_of ctx s :
  attempt_like attempt result_of ->
  attempt_logs attempt (attempt_events env c tr) ->
  let out :=
    DoHttpRequest_for attempt c ctx
      (Z.to_nat (MaxRetryTimes (HTTPClient.RetryConfig c))) 0%Z None None s in
  exists new,
    events out.2 = events s ++ new
    /\ forall n,
        closes_of n new = reads_of n new
        /\ reads_of n new <= 1
        /\ (reads_of n new = 1 <->
            attempts s <= n < attempts out.2
            /\ got_envelope env c (heap_req s) n)
        /\ (forall l1 l2, new = l1 ++ l2 -> closes_of n l1 <= reads_of n l1).
Proof.
  intros like logs. cbv zeta.
  pose (P := fun s' : State =>
    heap_req s' = heap_req s /\ attempts s <= attempts s'
    /\ exists new, events s' = events s ++ new
       /\ forall n,
           closes_of n new = reads_of n new
           /\ reads_of n new <= 1
           /\ (reads_of n new = 1 <->
               attempts s <= n < attempts s'
               /\ got_envelope env c (heap_req s) n)
           /\ (forall l1 l2, new = l1 ++ l2 ->
                 closes_of n l1 <= reads_of n l1)).
  assert (HP : P (DoHttpRequest_for attempt c ctx
              (Z.to_nat (MaxRetryTimes (HTTPClient.RetryConfig c))) 0%Z
              None None s).2).
  { apply DoHttpRequest_for_invariant.
    - intros s1 (Hh & Hle & new & Hev & Hnew).
      split; [rewrite (attempt_heap _ _ like); exact Hh |].
      split; [rewrite (attempt_count _ _ like); lia |].
      exists (new ++ attempt_events env c tr (heap_req s) (attempts s1)).
      split; [rewrite logs, Hev, Hh, app_assoc; reflexivity |].
      intros n. rewrite (attempt_count _ _ like).
      destruct (Hnew n) as (Hc & Hr1 & Hiff & Hpre).
      destruct (attempt_events_read_then_close env c tr (heap_req s)
                  (attempts s1) n) as (Hc' & Hr1' & Hiff' & Hpre').
      rewrite closes_of_app, reads_of_app.
      assert (Hex : reads_of n new = 1 ->
                    reads_of n (attempt_events env c tr (heap_req s)
                                  (attempts s1)) = 1 -> False).
      { intros H1 H2. apply Hiff in H1. apply Hiff' in H2. lia. }
      split; [lia |]. split.
      { destruct (Nat.eq_dec (reads_of n new) 1) as [H1 | H1];
          destruct (Nat.eq_dec (reads_of n (attempt_events env c tr
            (heap_req s) (attempts s1))) 1) as [H2 | H2];
          [exfalso; exact (Hex H1 H2) | lia | lia | lia]. }
      split.
      { split.
        - intros Hsum.
          destruct (Nat.eq_dec (reads_of n new) 1) as [H1 | H1].
          + apply Hiff in H1 as (Hn & Hg). split; [lia | exact Hg].
          + assert (H2 : reads_of n (attempt_events env c tr (heap_req s)
                                       (attempts s1)) = 1) by lia.
            apply Hiff' in H2 as (-> & Hg). split; [lia | exact Hg].
        - intros (Hn & Hg).
          destruct (Nat.eq_dec n (attempts s1)) as [-> | Hne].
          + assert (H2 : reads_of (attempts s1) (attempt_events env c tr
                           (heap_req s) (attempts s1)) = 1)
              by (apply Hiff'; auto).
            destruct (Nat.eq_dec (reads_of (attempts s1) new) 1) as [H1 | H1];
              [exfalso; exact (Hex H1 H2) | lia].
          + assert (H1 : reads_of n new = 1)
              by (apply Hiff; split; [lia | exact Hg]).
            destruct (Nat.eq_dec (reads_of n (attempt_events env c tr
              (heap_req s) (attempts s1))) 1) as [H2 | H2];
              [exfalso; exact (Hex H1 H2) | lia]. }
      apply well_closed_extend; assumption.
    - intros s1 (Hh & Hle & new & Hev & Hnew).
      destruct (pendingForRetry_log c ctx s1) as (Hh' & l & Hl & Hwait).
      assert (Hp : attempts (pendingForRetry c ctx s1).2 = attempts s1).
      { destruct (Z.lt_ge_cases 0 (RetryInterval (HTTPClient.RetryConfig c))).
        - apply pendingForRetry_interval. assumption.
        - rewrite pendingForRetry_no_interval by lia. reflexivity. }
      split; [congruence |]. split; [lia |].
      exists (new ++ l). split; [rewrite Hl, Hev, app_assoc; reflexivity |].
      intros n. rewrite Hp.
      destruct (Hnew n) as (Hc & Hr1 & Hiff & Hpre).
      destruct (waits_no_read_close n l Hwait) as (Hr0 & Hc0).
      rewrite closes_of_app, reads_of_app, Hr0, Hc0, !Nat.add_0_r.
      split; [exact Hc |]. split; [exact Hr1 |]. split; [exact Hiff |].
      apply well_closed_extend; [exact Hpre |].
      intros l1 l2 Heq. assert (closes_of n l1 <= 0); [| lia].
      rewrite <- Hc0, Heq, closes_of_app. lia.
    - split; [reflexivity |]. split; [lia |]. exists [].
      rewrite app_nil_r. split; [reflexivity |].
      intros n. split; [reflexivity |]. split; [cbn; lia |]. split.
      + split; [cbn; discriminate | intros (Hn & _); lia].
      + intros l1 l2 Heq. symmetry in Heq.
        apply app_eq_nil in Heq as (-> & _). cbn. lia. }
  destruct HP as (_ & _ & Hnew). exact Hnew.
Qed.

(** X9: whenever an attempt of a call gets a response envelope, its body is
    read once and then closed once, whether the read succeeds or fails: in
    the log of the call the body of attempt [n] is read exactly once when
    that attempt was made and got an envelope and never otherwise, it is
    closed as often as it is read, and no part of the log from its start
    closes it more often than it has read it. *)
Theorem every_response_body_is_closed env c ctx s :
  (let out := Lenient.DoHttpRequest env c ctx s in
   exists new,
     events out.2 = events s ++ new
     /\ forall n,
         closes_of n new = reads_of n new
         /\ reads_of n new <= 1
         /\ (reads_of n new = 1 <->
             attempts s <= n < attempts out.2
             /\ got_envelope env c (heap_req s) n)
         /\ (forall l1 l2, new = l1 ++ l2 ->
               closes_of n l1 <= reads_of n l1))
  /\ (let out := Strict.DoHttpRequest env c ctx s in
   exists new,
     events out.2 = events s ++ new
     /\ forall n,
         closes_of n new = reads_of n new
         /\ reads_of n new <= 1
         /\ (reads_of n new = 1 <->
             attempts s <= n < attempts out.2
             /\ got_envelope env c (heap_req s) n)
         /\ (forall l1 l2, new = l1 ++ l2 ->
               closes_of n l1 <= reads_of n l1)).
Proof.
  split.
  - exact (run_read_then_close env c trace.zero _ _ ctx s
             (Lenient_doHttpRequest_like env c)
             (Lenient_doHttpRequest_logs env c)).
  - exact (run_read_then_close env c (trace_of ctx) _ _ ctx s
             (Strict_doHttpRequest_like env c ctx)
             (Strict_doHttpRequest_logs env c ctx)).
Qed.

(** ** More on client construction *)

(** X10: [NewHTTPClient(nil)] of either file gives the same client, with the
    default transport and the retry configuration [{1, 0}]; a call on it is
    exactly one attempt, with no wait and no retry. *)
Theorem nil_config_client_never_retries env :
  let c0 := {| HTTPClient.Client := {| http.Transport_ := base_Transport |};
               HTTPClient.RetryConfig := default_RetryConfig |} in
  Lenient.NewHTTPClient env None = inl c0
  /\ Strict.NewHTTPClient env None = inl c0
  /\ (forall ctx s,
        Lenient.DoHttpRequest env c0 ctx s =
        (assigned (Lenient.attempt_result env c0 (heap_req s) (attempts s)),
         (Lenient.doHttpRequest env c0 s).2))
  /\ (forall ctx s,
        Strict.DoHttpRequest env c0 ctx s =
        (assigned (Strict.attempt_result env c0 ctx (heap_req s) (attempts s)),
         (Strict.doHttpRequest env c0 ctx s).2)).
Proof.
  intros c0. split; [reflexivity |]. split; [reflexivity |]. split; intros ctx s.
  - apply (run_no_interval _ _ (Lenient_doHttpRequest_like env c0) c0 ctx s);
      cbn; lia.
  - apply (run_no_interval _ _ (Strict_doHttpRequest_like env c0 ctx) c0 ctx s);
      cbn; lia.
Qed.

Lemma set_Proxy_defaults u tr :
  http.MaxIdleConns (set_Proxy u tr) = http.MaxIdleConns tr
  /\ http.IdleConnTimeout (set_Proxy u tr) = http.IdleConnTimeout tr
  /\ http.DisableCompression (set_Proxy u tr) = http.DisableCompression tr.
Proof. auto. Qed.

Lemma Lenient_proxy_Transport_defaults env config tr :
  Lenient.proxy_Transport env config = inl tr ->
  http.MaxIdleConns tr = 10%Z
  /\ http.IdleConnTimeout tr = (30 * Second)%Z
  /\ http.DisableCompression tr = true.
Proof.
  unfold Lenient.proxy_Transport. intros H.
  repeat case_match; simplify_eq; auto.
Qed.

Lemma Strict_trusted_Transport_defaults env config tr :
  Strict.trusted_Transport env config = inl tr ->
  http.MaxIdleConns tr = 10%Z
  /\ http.IdleConnTimeout tr = (30 * Second)%Z
  /\ http.DisableCompression tr = true.
Proof.
  unfold Strict.trusted_Transport. intros H.
  repeat case_match; simplify_eq; auto.
Qed.

(** X11: every client that either [NewHTTPClient] returns has the fixed
    pool settings, whatever the configuration: at most 10 idle connections,
    a 30 second idle timeout, compression disabled. *)
Theorem transport_defaults_are_fixed env cl cs c :
  Lenient.NewHTTPClient env cl = inl c \/ Strict.NewHTTPClient env cs = inl c ->
  let tr := http.Transport_ (HTTPClient.Client c) in
  http.MaxIdleConns tr = 10%Z
  /\ http.IdleConnTimeout tr = (30 * Second)%Z
  /\ http.DisableCompression tr = true.
Proof.
  intros [H | H]; cbv zeta.
  - unfold Lenient.NewHTTPClient in H.
    destruct (Lenient.proxy_Transport env cl) as [tr | err] eqn:Htr;
      [| discriminate].
    apply Lenient_proxy_Transport_defaults in Htr.
    repeat case_match; simplify_eq; exact Htr.
  - unfold Strict.NewHTTPClient in H.
    destruct cs as [config |]; [| simplify_eq; auto].
    destruct (Strict.checked_RetryConfig config); [| discriminate].
    destruct (Strict.trusted_Transport env config) as [tr | err] eqn:Htr;
      [| discriminate].
    apply Strict_trusted_Transport_defaults in Htr. simplify_eq. exact Htr.
Qed.

Lemma transport_defaults_are_fixed_witness :
  let e := Fixture.env Fixture.always_refused in
  let config :=
    Some {| Lenient.ProxyConfig :=
              Some {| Lenient.ProxyUrl :=
                        Some {| url.Scheme := "https";
                                url.Host := "proxy.example";
                                url.Path := "" |};
                      Lenient.ProxyCACertPath := "ca.pem" |};
            Lenient.RetryConfig := None |} in
  let tr := set_Proxy {| url.Scheme := "https"; url.Host := "proxy.example";
                         url.Path := "" |}
              (set_RootCAs [Fixture.pem] base_Transport) in
  http.MaxIdleConns tr = 10%Z
  /\ http.IdleConnTimeout tr = (30 * Second)%Z
  /\ http.DisableCompression tr = true.
Proof.
  intros e config tr.
  refine (transport_defaults_are_fixed e config None
            {| HTTPClient.Client := {| http.Transport_ := tr |};
               HTTPClient.RetryConfig := default_RetryConfig |} _).
  left. reflexivity.
Defined.

(** X12: in [src/httpclient/httpclient.go] the proxy CA file is read only
    for an [https] proxy with a CA path.  For any other scheme, or an empty
    path, construction succeeds without touching the file: the proxy is set
    and the root CAs stay nil.  A proxy configuration without a URL is
    ignored altogether, its CA path too. *)
Theorem proxy_CA_ignored_unless_https env u caPath retry :
  strings_ToLower (url.Scheme u) <> "https" \/ caPath = "" ->
  let rc := match retry with Some rc => rc | None => default_RetryConfig end in
  Lenient.NewHTTPClient env
    (Some {| Lenient.ProxyConfig :=
               Some {| Lenient.ProxyUrl := Some u;
                       Lenient.ProxyCACertPath := caPath |};
             Lenient.RetryConfig := retry |})
  = inl {| HTTPClient.Client :=
             {| http.Transport_ := set_Proxy u base_Transport |};
           HTTPClient.RetryConfig := rc |}
  /\ Lenient.NewHTTPClient env
    (Some {| Lenient.ProxyConfig :=
               Some {| Lenient.ProxyUrl := None;
                       Lenient.ProxyCACertPath := caPath |};
             Lenient.RetryConfig := retry |})
  = inl {| HTTPClient.Client := {| http.Transport_ := base_Transport |};
           HTTPClient.RetryConfig := rc |}.
Proof.
  intros Hgate rc. subst rc. split.
  - unfold Lenient.NewHTTPClient, Lenient.proxy_Transport.
    assert (Hcond :
      bool_decide (strings_ToLower (url.Scheme u) = "https")
      && (0 <? String.length caPath)%nat = false).
    { destruct Hgate as [Hs | ->].
      - rewrite bool_decide_eq_false_2 by exact Hs. reflexivity.
      - apply andb_false_r. }
    rewrite Hcond. destruct retry; reflexivity.
  - unfold Lenient.NewHTTPClient, Lenient.proxy_Transport.
    destruct retry; reflexivity.
Qed.

Lemma proxy_CA_ignored_unless_https_witness :
  let e := Fixture.env Fixture.always_refused in
  let u := {| url.Scheme := "http"; url.Host := "proxy.example"; url.Path := "" |} in
  Lenient.NewHTTPClient e
    (Some {| Lenient.ProxyConfig :=
               Some {| Lenient.ProxyUrl := Some u;
                       Lenient.ProxyCACertPath := "missing.pem" |};
             Lenient.RetryConfig := None |})
  = inl {| HTTPClient.Client :=
             {| http.Transport_ := set_Proxy u base_Transport |};
           HTTPClient.RetryConfig := default_RetryConfig |}.
Proof.
  intros e u.
  refine (proj1 (proxy_CA_ignored_unless_https e u "missing.pem" None _)).
  left. discriminate.
Defined.

(** X13: when the trust-anchor file is read and holds certificates, the
    client verifies against the system pool (an empty pool when there is
    none) with the file's certificates appended, whatever the (accepted)
    retry configuration; the traced package does so with or without a
    proxy. *)
Theorem trust_anchor_joins_system_pool env path data :
  path <> "" ->
  ReadFile env path = inl data ->
  decodePEM env data <> [] ->
  let pool :=
    match SystemCertPool env with
    | Some p => p
    | None => x509.NewCertPool
    end ++ decodePEM env data in
  (forall u retry,
     strings_ToLower (url.Scheme u) = "https" ->
     Lenient.NewHTTPClient env
       (Some {| Lenient.ProxyConfig :=
                  Some {| Lenient.ProxyUrl := Some u;
                          Lenient.ProxyCACertPath := path |};
                Lenient.RetryConfig := retry |})
     = inl {| HTTPClient.Client :=
                {| http.Transport_ :=
                     set_Proxy u (set_RootCAs pool base_Transport) |};
              HTTPClient.RetryConfig :=
                match retry with
                | Some rc => rc
                | None => default_RetryConfig
                end |})
  /\ (forall proxy retry,
     match retry with
     | Some rc => (1 <= MaxRetryTimes rc <= 5)%Z
     | None => True
     end ->
     Strict.NewHTTPClient env
       (Some {| Strict.TransportConfig :=
                  Some {| Strict.ProxyUrl := proxy; Strict.TrustedCA := path |};
                Strict.RetryConfig := retry |})
     = inl {| HTTPClient.Client :=
                {| http.Transport_ :=
                     set_RootCAs pool
                       match proxy with
                       | Some u => set_Proxy u base_Transport
                       | None => base_Transport
                       end |};
              HTTPClient.RetryConfig :=
                match retry with
                | Some rc => rc
                | None => default_RetryConfig
                end |}).
Proof.
  intros Hpath Hread Hcerts pool. subst pool. split.
  - intros u retry Hhttps.
    unfold Lenient.NewHTTPClient, Lenient.proxy_Transport.
    rewrite Hhttps, nonempty_length by exact Hpath.
    rewrite bool_decide_eq_true_2 by reflexivity. cbn [andb].
    rewrite Hread. unfold x509.AppendCertsFromPEM.
    destruct (decodePEM env data) as [| cert certs]; [congruence |].
    destruct retry; reflexivity.
  - intros proxy retry Hretry.
    unfold Strict.NewHTTPClient, Strict.checked_RetryConfig,
      Strict.trusted_Transport.
    cbn [Strict.RetryConfig Strict.TransportConfig Strict.TrustedCA
         Strict.ProxyUrl].
    rewrite bool_decide_eq_false_2 by exact Hpath. cbn [negb].
    rewrite Hread. unfold x509.AppendCertsFromPEM.
    destruct (decodePEM env data) as [| cert certs]; [congruence |].
    destruct retry as [rc |]; [| reflexivity].
    destruct (Z.ltb_spec (MaxRetryTimes rc) 1) as [Hlow | Hlow]; [lia |].
    destruct (Z.ltb_spec 5 (MaxRetryTimes rc)) as [Hhigh | Hhigh]; [lia |].
    reflexivity.
Qed.

Lemma trust_anchor_joins_system_pool_witness :
  let e := Fixture.env Fixture.always_refused in
  let rc := {| MaxRetryTimes := 3%Z; RetryInterval := Second |} in
  Strict.NewHTTPClient e
    (Some {| Strict.TransportConfig :=
               Some {| Strict.ProxyUrl := None; Strict.TrustedCA := "ca.pem" |};
             Strict.RetryConfig := Some rc |})
  = inl {| HTTPClient.Client :=
             {| http.Transport_ := set_RootCAs ([] ++ [Fixture.pem]) base_Transport |};
           HTTPClient.RetryConfig := rc |}.
Proof.
  intros e rc.
  refine (proj2 (trust_anchor_joins_system_pool e "ca.pem" Fixture.pem _ _ _)
            None (Some rc) _).
  - discriminate.
  - reflexivity.
  - discriminate.
  - split; discriminate.
Defined.

Lemma assigned_not_nil_nil (r : PushResponse.t + error) :
  assigned r <> (None, None).
Proof. destruct r; discriminate. Qed.

(** X14: every client that [NewHTTPClient] of the traced package returns,
    for whatever configuration, has [1 <= MaxRetryTimes <= 5]; so each call
    on it makes between one and five attempts and never returns a nil
    response together with a nil error. *)
Theorem strict_clients_attempt_1_to_5 env config c :
  Strict.NewHTTPClient env config = inl c ->
  (1 <= MaxRetryTimes (HTTPClient.RetryConfig c) <= 5)%Z
  /\ forall ctx s,
       let out := Strict.DoHttpRequest env c ctx s in
       1 <= attempts out.2 - attempts s <= 5
       /\ out.1 <> (None, None).
Proof.
  intros Hnew.
  assert (Hb : (1 <= MaxRetryTimes (HTTPClient.RetryConfig c) <= 5)%Z).
  { unfold Strict.NewHTTPClient, Strict.checked_RetryConfig in Hnew.
    destruct config as [config |]; [| simplify_eq; cbn; lia].
    destruct (Strict.RetryConfig config) as [rc |].
    - destruct (Z.ltb_spec (MaxRetryTimes rc) 1); [discriminate |].
      destruct (Z.ltb_spec 5 (MaxRetryTimes rc)); [discriminate |].
      cbn [orb] in Hnew.
      destruct (Strict.trusted_Transport env config); simplify_eq. cbn. lia.
    - destruct (Strict.trusted_Transport env config); simplify_eq. cbn. lia. }
  split; [exact Hb |]. intros ctx s. cbv zeta.
  pose proof (Strict_doHttpRequest_like env c ctx) as like.
  destruct (run_result_is_last _ _ like c ctx s (proj1 Hb)) as (Hone & Hr & _).
  destruct (run_bounds _ _ like c ctx s) as (_ & Hmax & _).
  unfold Strict.DoHttpRequest. split; [lia |].
  rewrite Hr. apply assigned_not_nil_nil.
Qed.

Lemma strict_clients_attempt_1_to_5_witness :
  let e := Fixture.env Fixture.numbered_refusals in
  let rc := {| MaxRetryTimes := 5%Z; RetryInterval := 1%Z |} in
  let c := {| HTTPClient.Client := {| http.Transport_ := base_Transport |};
              HTTPClient.RetryConfig := rc |} in
  (1 <= 5 <= 5)%Z
  /\ forall ctx s,
       let out := Strict.DoHttpRequest e c ctx s in
       1 <= attempts out.2 - attempts s <= 5
       /\ out.1 <> (None, None).
Proof.
  intros e rc c.
  refine (strict_clients_attempt_1_to_5 e
            (Some {| Strict.TransportConfig := None;
                     Strict.RetryConfig := Some rc |}) c _).
  reflexivity.
Defined.

(** X15: a client of [src/httpclient/httpclient.go] built from a
    configuration that [Config.ToHTTPClientConfig] accepted carries that
    configuration's [MaxRetryTimes], at least 1, and [RetryInterval]; each
    call on it makes at least one attempt, at most [MaxRetryTimes], and never
    returns a nil response together with a nil error. *)
Theorem validated_config_client_attempts env cfg hc c :
  config.ToHTTPClientConfig env cfg = inl hc ->
  Lenient.NewHTTPClient env (Some hc) = inl c ->
  HTTPClient.RetryConfig c =
    {| MaxRetryTimes := config.MaxRetryTimes cfg;
       RetryInterval := config.RetryInterval cfg |}
  /\ (1 <= config.MaxRetryTimes cfg)%Z
  /\ forall ctx s,
       let out := Lenient.DoHttpRequest env c ctx s in
       1 <= attempts out.2 - attempts s
       /\ (Z.of_nat (attempts out.2 - attempts s) <= config.MaxRetryTimes cfg)%Z
       /\ out.1 <> (None, None).
Proof.
  intros Hcfg Hnew.
  unfold config.ToHTTPClientConfig in Hcfg.
  destruct (Z.ltb_spec (config.MaxRetryTimes cfg) 1) as [| Hge]; [discriminate |].
  assert (Hrc : Lenient.RetryConfig hc =
    Some {| MaxRetryTimes := config.MaxRetryTimes cfg;
            RetryInterval := config.RetryInterval cfg |}).
  { repeat case_match; simplify_eq; reflexivity. }
  assert (Hc : HTTPClient.RetryConfig c =
    {| MaxRetryTimes := config.MaxRetryTimes cfg;
       RetryInterval := config.RetryInterval cfg |}).
  { unfold Lenient.NewHTTPClient in Hnew.
    destruct (Lenient.proxy_Transport env (Some hc)); [| discriminate].
    destruct hc as [pc retry]. cbn in Hrc. subst retry. simplify_eq.
    reflexivity. }
  split; [exact Hc |]. split; [exact Hge |]. intros ctx s. cbv zeta.
  pose proof (Lenient_doHttpRequest_like env c) as like.
  assert (HN : (1 <= MaxRetryTimes (HTTPClient.RetryConfig c))%Z)
    by (rewrite Hc; exact Hge).
  destruct (run_result_is_last _ _ like c ctx s HN) as (Hone & Hr & _).
  destruct (run_bounds _ _ like c ctx s) as (_ & Hmax & _).
  assert (HM : MaxRetryTimes (HTTPClient.RetryConfig c)
               = config.MaxRetryTimes cfg) by (rewrite Hc; reflexivity).
  unfold Lenient.DoHttpRequest. split; [lia |]. split; [lia |].
  rewrite Hr. apply assigned_not_nil_nil.
Qed.

Lemma validated_config_client_attempts_witness :
  let e := Fixture.env Fixture.numbered_refusals in
  let cfg :=
    {| config.AppId := "app"; config.AppSecret := "secret";
       config.AuthUrl := "auth"; config.PushUrl := "push";
       config.HttpProxyUrl := ""; config.ProxyCACertPath := "ca.pem";
       config.MaxRetryTimes := 2%Z; config.RetryInterval := Second |} in
  let c := {| HTTPClient.Client := {| http.Transport_ := base_Transport |};
              HTTPClient.RetryConfig :=
                {| MaxRetryTimes := 2%Z; RetryInterval := Second |} |} in
  HTTPClient.RetryConfig c = {| MaxRetryTimes := 2%Z; RetryInterval := Second |}
  /\ (1 <= 2)%Z
  /\ forall ctx s,
       let out := Lenient.DoHttpRequest e c ctx s in
       1 <= attempts out.2 - attempts s
       /\ (Z.of_nat (attempts out.2 - attempts s) <= 2)%Z
       /\ out.1 <> (None, None).
Proof.
  intros e cfg c.
  refine (validated_config_client_attempts e cfg
            {| Lenient.ProxyConfig := None;
               Lenient.RetryConfig :=
                 Some {| MaxRetryTimes := 2%Z; RetryInterval := Second |} |}
            c _ _).
  - reflexivity.
  - reflexivity.
Defined.

(** X16: [NewHTTPClientConfig] accepts every configuration whose proxy URL
    is empty or parses, whatever its [MaxRetryTimes] and [RetryInterval],
    and copies the two into the client configuration; a [MaxRetryTimes]
    outside 1..5 is rejected only afterwards, by [NewHTTPClient], with the
    retry-bounds error. *)
Theorem bounds_checked_by_NewHTTPClient_only env cfg :
  pushconfig.ProxyUrl cfg = ""
  \/ (exists u, url_ParseRequestURI env (pushconfig.ProxyUrl cfg) = inl u) ->
  exists hc,
    Strict.NewHTTPClientConfig env (Some cfg) = inl hc
    /\ Strict.RetryConfig hc =
       Some {| MaxRetryTimes := pushconfig.MaxRetryTimes cfg;
               RetryInterval := pushconfig.RetryInterval cfg |}
    /\ ((pushconfig.MaxRetryTimes cfg < 1 \/ 5 < pushconfig.MaxRetryTimes cfg)%Z ->
        Strict.NewHTTPClient env (Some hc) =
          inr (errors_New
            "maximum retry times value cannot be less than 1 and more than 5")).
Proof.
  intros Hurl.
  assert (Hok : exists hc,
    Strict.NewHTTPClientConfig env (Some cfg) = inl hc
    /\ Strict.RetryConfig hc =
       Some {| MaxRetryTimes := pushconfig.MaxRetryTimes cfg;
               RetryInterval := pushconfig.RetryInterval cfg |}).
  { unfold Strict.NewHTTPClientConfig. destruct Hurl as [-> | (u & Hu)].
    - eexists. split; reflexivity.
    - rewrite Hu.
      destruct (0 <? String.length (pushconfig.ProxyUrl cfg))%nat;
        eexists; split; reflexivity. }
  destruct Hok as (hc & Hcfg & Hrc). exists hc.
  split; [exact Hcfg |]. split; [exact Hrc |]. intros Hout.
  unfold Strict.NewHTTPClient, Strict.checked_RetryConfig. rewrite Hrc.
  cbn [MaxRetryTimes].
  destruct (Z.ltb_spec (pushconfig.MaxRetryTimes cfg) 1); [reflexivity |].
  destruct (Z.ltb_spec 5 (pushconfig.MaxRetryTimes cfg)); [reflexivity | lia].
Qed.

Lemma bounds_checked_by_NewHTTPClient_only_witness :
  let e := Fixture.env Fixture.always_refused in
  exists hc,
    Strict.NewHTTPClientConfig e
      (Some {| pushconfig.ProxyUrl := "proxy.example:3128";
               pushconfig.TrustedCA := "";
               pushconfig.MaxRetryTimes := 0%Z;
               pushconfig.RetryInterval := (-1)%Z |}) = inl hc
    /\ Strict.RetryConfig hc =
       Some {| MaxRetryTimes := 0%Z; RetryInterval := (-1)%Z |}
    /\ ((0 < 1 \/ 5 < 0)%Z ->
        Strict.NewHTTPClient e (Some hc) =
          inr "maximum retry times value cannot be less than 1 and more than 5").
Proof.
  intros e.
  refine (bounds_checked_by_NewHTTPClient_only e
            {| pushconfig.ProxyUrl := "proxy.example:3128";
               pushconfig.TrustedCA := "";
               pushconfig.MaxRetryTimes := 0%Z;
               pushconfig.RetryInterval := (-1)%Z |} _).
  right. eexists. reflexivity.
Defined.

(** X17: [NewHTTPClientConfig] keeps the trusted CA only inside the
    transport configuration it makes for a proxy URL.  With an empty proxy
    URL the trusted CA is dropped: there is no transport configuration, and
    the client built from the result has no root CAs and no proxy, whatever
    the CA path names. *)
Theorem trusted_CA_dropped_without_proxy_url env cfg :
  pushconfig.ProxyUrl cfg = "" ->
  (1 <= pushconfig.MaxRetryTimes cfg <= 5)%Z ->
  let rc := {| MaxRetryTimes := pushconfig.MaxRetryTimes cfg;
               RetryInterval := pushconfig.RetryInterval cfg |} in
  let hc := {| Strict.TransportConfig := None; Strict.RetryConfig := Some rc |} in
  Strict.NewHTTPClientConfig env (Some cfg) = inl hc
  /\ Strict.NewHTTPClient env (Some hc) =
     inl {| HTTPClient.Client := {| http.Transport_ := base_Transport |};
            HTTPClient.RetryConfig := rc |}.
Proof.
  intros Hurl Hb rc hc. subst rc hc. split.
  - unfold Strict.NewHTTPClientConfig. rewrite Hurl. reflexivity.
  - unfold Strict.NewHTTPClient, Strict.checked_RetryConfig,
      Strict.trusted_Transport. cbn [Strict.RetryConfig Strict.TransportConfig
      MaxRetryTimes].
    destruct (Z.ltb_spec (pushconfig.MaxRetryTimes cfg) 1); [lia |].
    destruct (Z.ltb_spec 5 (pushconfig.MaxRetryTimes cfg)); [lia |].
    reflexivity.
Qed.

Lemma trusted_CA_dropped_without_proxy_url_witness :
  let e := Fixture.env Fixture.always_refused in
  let cfg := {| pushconfig.ProxyUrl := ""; pushconfig.TrustedCA := "junk.pem";
                pushconfig.MaxRetryTimes := 3%Z;
                pushconfig.RetryInterval := Second |} in
  let rc := {| MaxRetryTimes := 3%Z; RetryInterval := Second |} in
  let hc := {| Strict.TransportConfig := None; Strict.RetryConfig := Some rc |} in
  Strict.NewHTTPClientConfig e (Some cfg) = inl hc
  /\ Strict.NewHTTPClient e (Some hc) =
     inl {| HTTPClient.Client := {| http.Transport_ := base_Transport |};
            HTTPClient.RetryConfig := rc |}.
Proof.
  intros e cfg.
  refine (trusted_CA_dropped_without_proxy_url e cfg _ _).
  - reflexivity.
  - split; discriminate.
Defined.

(** ** More on header options and the built request *)

(** X18: a [SetHeader] overwrites an earlier one for the same header, also
    when the two keys are spelled differently but have the same canonical
    form; in particular applying an option twice is applying it once. *)
Theorem SetHeader_overwrites_same_key env k1 v1 k2 v2 q :
  CanonicalMIMEHeaderKey env k1 = CanonicalMIMEHeaderKey env k2 ->
  SetHeader env k2 v2 (SetHeader env k1 v1 q) = SetHeader env k2 v2 q.
Proof.
  intros Hk. unfold SetHeader, http.setReqHeader, http.Set_.
  cbn [http.reqHeader http.reqMethod http.reqURL http.reqBody].
  rewrite Hk, insert_insert_eq. reflexivity.
Qed.

Lemma SetHeader_overwrites_same_key_witness :
  let e := Fixture.env Fixture.always_refused in
  let q := {| http.reqMethod := "POST";
              http.reqURL := {| url.Scheme := "https"; url.Host := "host";
                                url.Path := "" |};
              http.reqHeader := ∅;
              http.reqBody := None |} in
  SetHeader e "X" "2" (SetHeader e "X" "1" q) = SetHeader e "X" "2" q.
Proof.
  intros e q.
  refine (SetHeader_overwrites_same_key e "X" "1" "X" "2" q _).
  reflexivity.
Defined.

(** X19: [SetHeader] options for different headers commute: the order in
    which they are listed does not change the built request. *)
Theorem SetHeader_commutes_on_distinct_keys env k1 v1 k2 v2 q :
  CanonicalMIMEHeaderKey env k1 <> CanonicalMIMEHeaderKey env k2 ->
  SetHeader env k2 v2 (SetHeader env k1 v1 q)
  = SetHeader env k1 v1 (SetHeader env k2 v2 q).
Proof.
  intros Hk. unfold SetHeader, http.setReqHeader, http.Set_.
  cbn [http.reqHeader http.reqMethod http.reqURL http.reqBody].
  rewrite insert_insert_ne by (intros Heq; apply Hk; symmetry; exact Heq).
  reflexivity.
Qed.

Lemma SetHeader_commutes_on_distinct_keys_witness :
  let e := Fixture.env Fixture.always_refused in
  let q := {| http.reqMethod := "POST";
              http.reqURL := {| url.Scheme := "https"; url.Host := "host";
                                url.Path := "" |};
              http.reqHeader := ∅;
              http.reqBody := None |} in
  SetHeader e "Authorization" "Bearer t" (SetHeader e "Content-Type" "json" q)
  = SetHeader e "Content-Type" "json" (SetHeader e "Authorization" "Bearer t" q).
Proof.
  intros e q.
  refine (SetHeader_commutes_on_distinct_keys e "Content-Type" "json"
            "Authorization" "Bearer t" q _).
  discriminate.
Defined.

Lemma http_NewRequest_fresh env method urlStr body req0 :
  http_NewRequest env method urlStr body = inl req0 ->
  http.reqHeader req0 = ∅
  /\ http.reqBody req0 = body
  /\ http.reqMethod req0 = (if bool_decide (method = "") then "GET" else method)
  /\ url_Parse env urlStr = inl (http.reqURL req0).
Proof.
  unfold http_NewRequest. intros H.
  destruct (negb (validMethod env _)); [discriminate |].
  destruct (url_Parse env urlStr) as [u | e]; [| discriminate].
  inversion H; subst. auto.
Qed.

Lemma SetHeaders_lookup env key (options : list (string * string)) :
  forall q found,
  http.reqHeader q !! CanonicalMIMEHeaderKey env key
    = (fun v => [v]) <$> found ->
  http.reqHeader
    (fold_left (fun req opt => opt req)
       (map (fun kv => SetHeader env kv.1 kv.2) options) q)
    !! CanonicalMIMEHeaderKey env key
  = (fun v => [v]) <$> last_value (CanonicalMIMEHeaderKey env) key options found.
Proof.
  induction options as [| [k v] options IH]; intros q found Hq; [exact Hq |].
  cbn [map fold_left last_value fst snd]. apply IH.
  unfold SetHeader, http.setReqHeader, http.Set_. cbn [http.reqHeader].
  case_bool_decide as Hk.
  - rewrite Hk, lookup_insert_eq. reflexivity.
  - rewrite lookup_insert_ne by exact Hk. exact Hq.
Qed.

(** X20: for a request whose options are all [SetHeader]s, a header of the
    built request reads as the value of the last option for it (keys
    compared in canonical form), and as the empty string when no option
    sets it. *)
Theorem built_header_reads_last_value env r req0
    (options : list (string * string)) key :
  http_NewRequest env (PushRequest.Method r) (PushRequest.URL r)
    (PushRequest.Body r) = inl req0 ->
  PushRequest.Header r = map (fun kv => SetHeader env kv.1 kv.2) options ->
  exists req,
    buildHTTPRequest env r = inl req
    /\ http.Get (CanonicalMIMEHeaderKey env) (http.reqHeader req) key
       = default "" (last_value (CanonicalMIMEHeaderKey env) key options None).
Proof.
  intros Hnew Hopts. eexists. split.
  - unfold buildHTTPRequest. rewrite Hnew. reflexivity.
  - destruct (http_NewRequest_fresh _ _ _ _ _ Hnew) as (Hempty & _).
    unfold http.Get. rewrite Hopts.
    rewrite (SetHeaders_lookup env key options req0 None)
      by (rewrite Hempty; apply lookup_empty).
    destruct (last_value (CanonicalMIMEHeaderKey env) key options None);
      reflexivity.
Qed.

Lemma built_header_reads_last_value_witness :
  let e := Fixture.env Fixture.always_refused in
  exists req,
    buildHTTPRequest e (Fixture.request e) = inl req
    /\ http.Get (CanonicalMIMEHeaderKey e) (http.reqHeader req) "Accept"
       = default "" (last_value (CanonicalMIMEHeaderKey e) "Accept"
                       [("X", "1"); ("X", "2")] None).
Proof.
  intros e.
  refine (built_header_reads_last_value e (Fixture.request e)
            {| http.reqMethod := "POST";
               http.reqURL := {| url.Scheme := "https";
                                 url.Host := "push-api.cloud.huawei.com";
                                 url.Path := "" |};
               http.reqHeader := ∅;
               http.reqBody := Some [x7b; x7d] |}
            [("X", "1"); ("X", "2")] "Accept" _ _).
  - reflexivity.
  - reflexivity.
Defined.

Lemma SetHeaders_frame env (options : list (string * string)) :
  forall q,
  let q' := fold_left (fun req opt => opt req)
              (map (fun kv => SetHeader env kv.1 kv.2) options) q in
  http.reqMethod q' = http.reqMethod q
  /\ http.reqURL q' = http.reqURL q
  /\ http.reqBody q' = http.reqBody q
  /\ dom (http.reqHeader q')
     = dom (http.reqHeader q)
       ∪ list_to_set (map (fun kv => CanonicalMIMEHeaderKey env kv.1) options).
Proof.
  induction options as [| [k v] options IH]; intros q; cbv zeta.
  - cbn. repeat split; auto. rewrite (right_id_L ∅ (∪)). reflexivity.
  - cbn [map fold_left fst snd]. specialize (IH (SetHeader env k v q)).
    cbv zeta in IH. destruct IH as (Hm & Hu & Hb & Hd).
    rewrite Hm, Hu, Hb, Hd. repeat split.
    unfold SetHeader, http.setReqHeader, http.Set_. cbn [http.reqHeader].
    rewrite dom_insert_L. cbn [list_to_set].
    rewrite (comm_L (∪) {[CanonicalMIMEHeaderKey env k]} (dom (http.reqHeader q))).
    rewrite (assoc_L (∪)). reflexivity.
Qed.

(** X21: [SetHeader] options touch nothing but the header map: the built
    request has the method of the [PushRequest] ([GET] for an empty one),
    its parsed URL and its body, and the headers it carries are exactly the
    canonical keys of the options. *)
Theorem SetHeader_options_touch_only_headers env r req0
    (options : list (string * string)) :
  http_NewRequest env (PushRequest.Method r) (PushRequest.URL r)
    (PushRequest.Body r) = inl req0 ->
  PushRequest.Header r = map (fun kv => SetHeader env kv.1 kv.2) options ->
  exists req,
    buildHTTPRequest env r = inl req
    /\ http.reqMethod req =
       (if bool_decide (PushRequest.Method r = "") then "GET"
        else PushRequest.Method r)
    /\ url_Parse env (PushRequest.URL r) = inl (http.reqURL req)
    /\ http.reqBody req = PushRequest.Body r
    /\ dom (http.reqHeader req)
       = list_to_set (map (fun kv => CanonicalMIMEHeaderKey env kv.1) options).
Proof.
  intros Hnew Hopts. eexists. split.
  - unfold buildHTTPRequest. rewrite Hnew. reflexivity.
  - destruct (http_NewRequest_fresh _ _ _ _ _ Hnew) as (He & Hb & Hm & Hu).
    rewrite Hopts.
    destruct (SetHeaders_frame env options req0) as (Hm' & Hu' & Hb' & Hd').
    rewrite Hm', Hu', Hb', Hd', He, Hb, Hm. repeat split; auto.
    rewrite dom_empty_L. apply (left_id_L ∅ (∪)).
Qed.

Lemma SetHeader_options_touch_only_headers_witness :
  let e := Fixture.env Fixture.always_refused in
  exists req,
    buildHTTPRequest e (Fixture.request e) = inl req
    /\ http.reqMethod req = "POST"
    /\ url_Parse e "push-api.cloud.huawei.com" = inl (http.reqURL req)
    /\ http.reqBody req = Some [x7b; x7d]
    /\ dom (http.reqHeader req) = list_to_set ["X"; "X"].
Proof.
  intros e.
  refine (SetHeader_options_touch_only_headers e (Fixture.request e)
            {| http.reqMethod := "POST";
               http.reqURL := {| url.Scheme := "https";
                                 url.Host := "push-api.cloud.huawei.com";
                                 url.Path := "" |};
               http.reqHeader := ∅;
               http.reqBody := Some [x7b; x7d] |}
            [("X", "1"); ("X", "2")] _ _).
  - reflexivity.
  - reflexivity.
Defined.

(** ** The log of a cancelled call *)

(** X22: the log of a call cancelled in the wait after its [k]-th failed
    attempt is, in order: for each of the first [k - 1] attempts its events
    and a timer of [RetryInterval]; the events of the [k]-th attempt; the
    cancellation.  Nothing follows the cancellation. *)
Theorem cancelled_call_log env c ctx s k err :
  (0 < RetryInterval (HTTPClient.RetryConfig c))%Z ->
  1 <= k -> (Z.of_nat k <= MaxRetryTimes (HTTPClient.RetryConfig c))%Z ->
  (forall j, j < k - 1 -> context.Done ctx (waits s + j) = false) ->
  context.Done ctx (waits s + (k - 1)) = true ->
  (forall j, j < k - 1 ->
     failed (Lenient.attempt_result env c (heap_req s) (attempts s + j))) ->
  Lenient.attempt_result env c (heap_req s) (attempts s + (k - 1)) = inr err ->
  events (Lenient.DoHttpRequest env c ctx s).2
  = events s
    ++ rounds_log (attempt_events env c trace.zero) (heap_req s)
         (RetryInterval (HTTPClient.RetryConfig c)) (attempts s) (waits s) (k - 1)
    ++ attempt_events env c trace.zero (heap_req s) (attempts s + (k - 1))
    ++ [EvDone (waits s + (k - 1))]
  /\ events (Strict.DoHttpRequest env c ctx s).2
  = events s
    ++ rounds_log (attempt_events env c (trace_of ctx)) (heap_req s)
         (RetryInterval (HTTPClient.RetryConfig c)) (attempts s) (waits s) (k - 1)
    ++ attempt_events env c (trace_of ctx) (heap_req s) (attempts s + (k - 1))
    ++ [EvDone (waits s + (k - 1))].
Proof.
  intros Hi Hk HkN Htimer Hdone Hfail Hres. split.
  - unfold Lenient.DoHttpRequest.
    rewrite (run_cancelled_state _ _ _ (Lenient_doHttpRequest_like env c)
               (Lenient_doHttpRequest_logs env c) c ctx s k err); auto.
  - unfold Strict.DoHttpRequest.
    rewrite (run_cancelled_state _ _ _ (Strict_doHttpRequest_like env c ctx)
               (Strict_doHttpRequest_logs env c ctx) c ctx s k err); auto.
    + intros j Hj. rewrite Strict_attempt_result_Lenient. auto.
    + rewrite Strict_attempt_result_Lenient. exact Hres.
Qed.

Lemma cancelled_call_log_witness :
  let e := Fixture.env Fixture.numbered_refusals in
  let c := Fixture.client 5%Z (10 * Second)%Z in
  let ctx := Fixture.cancelled_in_wait 1 in
  let s := Fixture.start e in
  events (Lenient.DoHttpRequest e c ctx s).2
  = [] ++ rounds_log (attempt_events e c trace.zero) (Fixture.request e)
            (10 * Second)%Z 0 0 1
       ++ attempt_events e c trace.zero (Fixture.request e) 1
       ++ [EvDone 1].
Proof.
  intros e c ctx s.
  refine (proj1 (cancelled_call_log e c ctx s 2 "1" _ _ _ _ _ _ _)).
  - reflexivity.
  - repeat constructor.
  - discriminate.
  - intros [| j] Hj; [reflexivity | inversion Hj as [| ? Hj']; inversion Hj'].
  - reflexivity.
  - intros j Hj. exact I.
  - reflexivity.
Defined.

(** ** What the constructors accept *)

(** X23: [Config.ToHTTPClientConfig] accepts a configuration exactly when
    [MaxRetryTimes >= 1] and the proxy URL is empty or parses; no other
    field, [RetryInterval] included, is looked at. *)
Theorem ToHTTPClientConfig_accepts_iff env cfg :
  (exists hc, config.ToHTTPClientConfig env cfg = inl hc)
  <-> (1 <= config.MaxRetryTimes cfg)%Z
      /\ (config.HttpProxyUrl cfg = ""
          \/ exists u, url_ParseRequestURI env (config.HttpProxyUrl cfg) = inl u).
Proof.
  unfold config.ToHTTPClientConfig. split.
  - intros (hc & H).
    destruct (Z.ltb_spec (config.MaxRetryTimes cfg) 1) as [Hlow | Hlow];
      [discriminate |].
    split; [assumption |].
    destruct (config.HttpProxyUrl cfg) as [| a rest] eqn:Hurl; [left; reflexivity |].
    right. cbn [String.length Nat.ltb Nat.leb] in H.
    destruct (url_ParseRequestURI env (String a rest)) as [u | e];
      [exists u; reflexivity | discriminate].
  - intros (Hmax & Hurl).
    destruct (Z.ltb_spec (config.MaxRetryTimes cfg) 1); [lia |].
    destruct Hurl as [-> | (u & Hu)].
    + eexists. reflexivity.
    + rewrite Hu. destruct (0 <? String.length (config.HttpProxyUrl cfg))%nat;
        eexists; reflexivity.
Qed.

Lemma checked_RetryConfig_accepts_iff config :
  (exists r, Strict.checked_RetryConfig config = inl r)
  <-> match Strict.RetryConfig config with
      | Some rc => (1 <= MaxRetryTimes rc <= 5)%Z
      | None => True
      end.
Proof.
  unfold Strict.checked_RetryConfig.
  destruct (Strict.RetryConfig config) as [rc |].
  - destruct (Z.ltb_spec (MaxRetryTimes rc) 1) as [Hlow | Hlow];
      [split; [intros (r & H); discriminate | lia] |].
    destruct (Z.ltb_spec 5 (MaxRetryTimes rc)) as [Hhigh | Hhigh]; cbn [orb].
    + split; [intros (r & H); discriminate | lia].
    + split; [lia | intros _; eexists; reflexivity].
  - split; [intros _; exact I | intros _; eexists; reflexivity].
Qed.

Lemma trusted_Transport_accepts_iff env config :
  (exists tr, Strict.trusted_Transport env config = inl tr)
  <-> match Strict.TransportConfig config with
      | Some tc =>
          Strict.TrustedCA tc = ""
          \/ exists data,
               ReadFile env (Strict.TrustedCA tc) = inl data
               /\ decodePEM env data <> []
      | None => True
      end.
Proof.
  unfold Strict.trusted_Transport, x509.AppendCertsFromPEM.
  destruct (Strict.TransportConfig config) as [tc |].
  2: { split; [intros _; exact I | intros _; eexists; reflexivity]. }
  case_bool_decide as Hca; cbn [negb].
  { split; [intros _; left; exact Hca | intros _; eexists; reflexivity]. }
  destruct (ReadFile env (Strict.TrustedCA tc)) as [data | err].
  - destruct (decodePEM env data) as [| cert certs] eqn:Hd; cbn [negb].
    + split; [intros (tr & H); discriminate |].
      intros [He | (d & Hr & Hne)];
        [contradiction | simplify_eq; congruence].
    + split; [| intros _; eexists; reflexivity].
      intros _. right. exists data.
      split; [reflexivity | rewrite Hd; discriminate].
  - split; [intros (tr & H); discriminate |].
    intros [He | (d & Hr & _)]; [contradiction | discriminate].
Qed.

(** X24: [NewHTTPClient] of the traced package accepts a configuration
    exactly when its retry configuration, if any, has [MaxRetryTimes] in
    1..5 and its trusted CA, if any, names a readable file holding at least
    one certificate. *)
Theorem Strict_NewHTTPClient_accepts_iff env config :
  (exists c, Strict.NewHTTPClient env (Some config) = inl c)
  <-> match Strict.RetryConfig config with
      | Some rc => (1 <= MaxRetryTimes rc <= 5)%Z
      | None => True
      end
      /\ match Strict.TransportConfig config with
         | Some tc =>
             Strict.TrustedCA tc = ""
             \/ exists data,
                  ReadFile env (Strict.TrustedCA tc) = inl data
                  /\ decodePEM env data <> []
         | None => True
         end.
Proof.
  rewrite <- checked_RetryConfig_accepts_iff,
          <- (trusted_Transport_accepts_iff env).
  unfold Strict.NewHTTPClient.
  destruct (Strict.checked_RetryConfig config) as [r | e].
  - destruct (Strict.trusted_Transport env config) as [tr | e].
    + split; [intros _; split; eexists; reflexivity
             | intros _; eexists; reflexivity].
    + split; [intros (c & H); discriminate
             | intros (_ & tr & H); discriminate].
  - split; [intros (c & H); discriminate
           | intros ((r & H) & _); discriminate].
Qed.

(** X25: [NewHTTPClient] of [src/httpclient/httpclient.go] rejects a
    configuration only over the proxy CA file: it accepts exactly when the
    file is not asked for (no proxy URL, a scheme other than [https], or an
    empty CA path) or is readable and holds at least one certificate.  The
    retry configuration never matters. *)
Theorem Lenient_NewHTTPClient_accepts_iff env pc retry :
  (exists c,
     Lenient.NewHTTPClient env
       (Some {| Lenient.ProxyConfig := Some pc; Lenient.RetryConfig := retry |})
     = inl c)
  <-> match Lenient.ProxyUrl pc with
      | Some u =>
          strings_ToLower (url.Scheme u) <> "https"
          \/ Lenient.ProxyCACertPath pc = ""
          \/ exists data,
               ReadFile env (Lenient.ProxyCACertPath pc) = inl data
               /\ decodePEM env data <> []
      | None => True
      end.
Proof.
  unfold Lenient.NewHTTPClient, Lenient.proxy_Transport,
    x509.AppendCertsFromPEM.
  destruct pc as [[u |] caPath]; cbn [Lenient.ProxyUrl Lenient.ProxyCACertPath].
  2: { split; [intros _; exact I | intros _; destruct retry; eexists; reflexivity]. }
  case_bool_decide as Hs; cbn [andb].
  2: { split; [intros _; left; exact Hs
              | intros _; destruct retry; eexists; reflexivity]. }
  destruct caPath as [| a rest].
  { split; [intros _; right; left; reflexivity
           | intros _; destruct retry; eexists; reflexivity]. }
  cbn [String.length Nat.ltb Nat.leb].
  destruct (ReadFile env (String a rest)) as [data | err].
  - destruct (decodePEM env data) as [| cert certs] eqn:Hd; cbn [negb].
    + split; [intros (c & H); discriminate |].
      intros [Hn | [He | (d & Hr & Hne)]];
        [contradiction | discriminate | simplify_eq; congruence].
    + split; [| intros _; destruct retry; eexists; reflexivity].
      intros _. right. right. exists data.
      split; [reflexivity | rewrite Hd; discriminate].
  - split; [intros (c & H); discriminate |].
    intros [Hn | [He | (d & Hr & _)]];
      [contradiction | discriminate | discriminate].
Qed.

(** X26: [RetryInterval] is never validated, and any value that is not
    positive switches the retry off: for [MaxRetryTimes >= 1] every call is
    exactly one attempt, whatever its outcome, with no wait. *)
Theorem nonpositive_interval_means_one_attempt env c ctx s :
  (1 <= MaxRetryTimes (HTTPClient.RetryConfig c))%Z ->
  (RetryInterval (HTTPClient.RetryConfig c) <= 0)%Z ->
  Lenient.DoHttpRequest env c ctx s =
    (assigned (Lenient.attempt_result env c (heap_req s) (attempts s)),
     (Lenient.doHttpRequest env c s).2)
  /\ Strict.DoHttpRequest env c ctx s =
    (assigned (Strict.attempt_result env c ctx (heap_req s) (attempts s)),
     (Strict.doHttpRequest env c ctx s).2).
Proof.
  intros HN Hi. split.
  - exact (run_no_interval _ _ (Lenient_doHttpRequest_like env c) c ctx s HN Hi).
  - exact (run_no_interval _ _ (Strict_doHttpRequest_like env c ctx) c ctx s HN Hi).
Qed.

Lemma nonpositive_interval_means_one_attempt_witness :
  let e := Fixture.env (Fixture.served_at 1 200) in
  let c := Fixture.client 4%Z (-5)%Z in
  let s := Fixture.start e in
  Lenient.DoHttpRequest e c Fixture.never_cancelled s =
    (assigned (Lenient.attempt_result e c (heap_req s) (attempts s)),
     (Lenient.doHttpRequest e c s).2).
Proof.
  intros e c s.
  refine (proj1 (nonpositive_interval_means_one_attempt e c
                   Fixture.never_cancelled s _ _)).
  - discriminate.
  - discriminate.
Defined.

(** * The retry controller against a scripted transport *)

(** C5, as the code has it: if the attempts before the [k]-th fail and the
    [k]-th succeeds, with [k <= MaxRetryTimes], and either [k = 1] or the
    interval is positive and no wait before attempt [k] is cancelled, then
    exactly [k] attempts are made, the result of [DoHttpRequest] is the
    [k]-th attempt's response, and nothing is attempted after it. *)
Theorem first_success_after_failures env c ctx s k :
  1 <= k ->
  (Z.of_nat k <= MaxRetryTimes (HTTPClient.RetryConfig c))%Z ->
  k = 1
  \/ ((0 < RetryInterval (HTTPClient.RetryConfig c))%Z
      /\ forall j, j < k - 1 -> context.Done ctx (waits s + j) = false) ->
  (forall response,
     (forall j, j < k - 1 ->
        failed (Lenient.attempt_result env c (heap_req s) (attempts s + j))) ->
     Lenient.attempt_result env c (heap_req s) (attempts s + (k - 1))
       = inl response ->
     let out := Lenient.DoHttpRequest env c ctx s in
     attempts out.2 = attempts s + k /\ out.1 = (Some response, None))
  /\ (forall response,
     (forall j, j < k - 1 ->
        failed (Strict.attempt_result env c ctx (heap_req s) (attempts s + j))) ->
     Strict.attempt_result env c ctx (heap_req s) (attempts s + (k - 1))
       = inl response ->
     let out := Strict.DoHttpRequest env c ctx s in
     attempts out.2 = attempts s + k /\ out.1 = (Some response, None)).
Proof.
  intros Hk HkN Hreach. split; intros response Hfail Hres; cbv zeta.
  - pose proof (Lenient_doHttpRequest_like env c) as like.
    unfold Lenient.DoHttpRequest.
    destruct Hreach as [-> | (Hi & Htimer)].
    + rewrite Nat.add_0_r in Hres.
      destruct (run_first_success _ _ like c ctx s response ltac:(lia) Hres)
        as (Hr & Ha & _).
      split; [lia | exact Hr].
    + replace (attempts s + (k - 1)) with (attempts s + k - 1) in Hres by lia.
      destruct (run_scripted_success _ _ like c ctx s k response Hi Hk HkN
                  Hfail Htimer Hres) as (_ & Ha & _ & Hr).
      split; assumption.
  - pose proof (Strict_doHttpRequest_like env c ctx) as like.
    unfold Strict.DoHttpRequest.
    destruct Hreach as [-> | (Hi & Htimer)].
    + rewrite Nat.add_0_r in Hres.
      destruct (run_first_success _ _ like c ctx s response ltac:(lia) Hres)
        as (Hr & Ha & _).
      split; [lia | exact Hr].
    + replace (attempts s + (k - 1)) with (attempts s + k - 1) in Hres by lia.
      destruct (run_scripted_success _ _ like c ctx s k response Hi Hk HkN
                  Hfail Htimer Hres) as (_ & Ha & _ & Hr).
      split; assumption.
Qed.

(** At most three attempts, ten milliseconds apart; the transport fails
    twice and then answers. *)
Lemma first_success_after_failures_witness :
  let e := Fixture.env (Fixture.served_at 2 200) in
  let out := Lenient.DoHttpRequest e (Fixture.client 3%Z 10000000%Z)
               Fixture.never_cancelled (Fixture.start e) in
  attempts out.2 = 0 + 3
  /\ out.1 = (Some {| PushResponse.Status := 200;
                      PushResponse.Header := ∅;
                      PushResponse.Body := [x6f; x6b] |}, None).
Proof.
  intros e.
  refine (proj1 (first_success_after_failures e (Fixture.client 3%Z 10000000%Z)
                   Fixture.never_cancelled (Fixture.start e) 3 _ _ _) _ _ _).
  - repeat constructor.
  - discriminate.
  - right. split; [reflexivity | intros j Hj; reflexivity].
  - intros j Hj. cbn in Hj.
    destruct j as [| [| j]]; [exact I | exact I |].
    exfalso. apply (Nat.lt_irrefl 2).
    apply (Nat.le_lt_trans _ (S (S j))); [| exact Hj].
    apply le_n_S, le_n_S, Nat.le_0_l.
  - reflexivity.
Defined.

(** C5 fails as stated.  The first attempt fails and the second would
    succeed, with [MaxRetryTimes = 3]: with [RetryInterval = 0] one attempt
    is made, not two, and its error is returned; with a positive interval
    the same happens when the context is cancelled during the first wait. *)
Lemma first_success_not_reached_counterexample :
  let e := Fixture.env (Fixture.served_at 1 200) in
  let s := Fixture.start e in
  let c0 := Fixture.client 3%Z 0%Z in
  let c1 := Fixture.client 3%Z 10000000%Z in
  failed (Lenient.attempt_result e c0 (heap_req s) 0)
  /\ Lenient.attempt_result e c0 (heap_req s) 1
     = inl {| PushResponse.Status := 200; PushResponse.Header := ∅;
              PushResponse.Body := [x6f; x6b] |}
  /\ (2 <= MaxRetryTimes (HTTPClient.RetryConfig c0))%Z
  /\ attempts (Lenient.DoHttpRequest e c0 Fixture.never_cancelled s).2 = 1
  /\ (Lenient.DoHttpRequest e c0 Fixture.never_cancelled s).1 = (None, Some "0")
  /\ attempts (Strict.DoHttpRequest e c0 Fixture.never_cancelled s).2 = 1
  /\ (Strict.DoHttpRequest e c0 Fixture.never_cancelled s).1 = (None, Some "0")
  /\ attempts (Lenient.DoHttpRequest e c1 (Fixture.cancelled_in_wait 0) s).2 = 1
  /\ (Lenient.DoHttpRequest e c1 (Fixture.cancelled_in_wait 0) s).1
     = (None, Some "0").
Proof.
  cbv zeta. repeat split; try reflexivity; discriminate.
Qed.

(** * Cancellation and the log *)

Ltac split_in :=
  repeat match goal with
  | H : _ ∈ _ ++ _ |- _ => apply elem_of_app in H as [H | H]
  | H : _ ∈ _ :: _ |- _ => apply elem_of_cons in H as [H | H]
  | H : _ ∈ [] |- _ => inversion H
  end.

Lemma hook_events_no_wait {A} (hook : option (A -> string)) (a : A) ev :
  ev ∈ hook_events hook a -> is_wait ev = false.
Proof.
  destruct hook; cbn; intros Hin.
  - apply list_elem_of_singleton in Hin. subst. reflexivity.
  - inversion Hin.
Qed.

Lemma attempt_events_no_wait env c tr r m ev :
  ev ∈ attempt_events env c tr r m -> is_wait ev = false.
Proof.
  unfold attempt_events, exchange_events.
  destruct (buildHTTPRequest env r) as [request | err]; [| intros H; inversion H].
  destruct (Do env (HTTPClient.Client c) m request) as [err | st h b [err |]];
    intros Hin; split_in; subst;
    try reflexivity; try (eapply hook_events_no_wait; eassumption).
Qed.

Lemma rounds_log_timers env c tr r d0 k : forall a w w' d,
  EvTimer w' d ∈ rounds_log (attempt_events env c tr) r d0 a w k ->
  w <= w' < w + k.
Proof.
  induction k as [| k IH]; intros a w w' d Hin; [inversion Hin |].
  cbn [rounds_log] in Hin. apply elem_of_app in Hin as [Hin | Hin].
  - apply attempt_events_no_wait in Hin. discriminate.
  - apply elem_of_cons in Hin as [Hin | Hin].
    + inversion Hin; subst. lia.
    + apply IH in Hin. lia.
Qed.

Lemma run_cancelled_unblocked env c tr attempt result_of ctx s k err :
  attempt_like attempt result_of ->
  attempt_logs attempt (attempt_events env c tr) ->
  (0 < RetryInterval (HTTPClient.RetryConfig c))%Z ->
  1 <= k -> (Z.of_nat k <= MaxRetryTimes (HTTPClient.RetryConfig c))%Z ->
  (forall j, j < k - 1 ->
     failed (result_of (heap_req s) (attempts s + j))) ->
  (forall j, j < k - 1 -> context.Done ctx (waits s + j) = false) ->
  result_of (heap_req s) (attempts s + (k - 1)) = inr err ->
  context.Done ctx (waits s + (k - 1)) = true ->
  let out :=
    DoHttpRequest_for attempt c ctx
      (Z.to_nat (MaxRetryTimes (HTTPClient.RetryConfig c))) 0%Z None None s in
  attempts out.2 = attempts s + k
  /\ waits out.2 = waits s + k
  /\ out.1 = (None, Some err)
  /\ exists new,
       events out.2 = events s ++ new ++ [EvDone (waits s + (k - 1))]
       /\ forall d, EvTimer (waits s + (k - 1)) d ∉ new.
Proof.
  intros like logs Hi Hk HkN Hfail Htimer Hres Hdone. cbv zeta.
  rewrite (run_cancelled_state _ _ _ like logs c ctx s k err) by assumption.
  cbn [fst snd attempts waits events].
  split; [reflexivity |]. split; [reflexivity |]. split; [reflexivity |].
  eexists. split; [rewrite <- app_assoc; reflexivity |].
  intros d Hin. apply elem_of_app in Hin as [Hin | Hin].
  - apply rounds_log_timers in Hin. lia.
  - apply attempt_events_no_wait in Hin. discriminate.
Qed.

(** C6: with a positive interval, if the context is cancelled during the
    wait that follows the [k]-th failed attempt, that wait ends by the
    cancellation and not by its timer: the [select] takes the [ctx.Done()]
    case, which is the last event of the call, and no timer event of that
    wait is logged.  [pendingForRetry] returns false and the loop breaks:
    exactly [k] attempts are made, nothing is attempted afterwards, and
    [DoHttpRequest] returns the [k]-th attempt's error. *)
Theorem cancellation_unblocks_the_wait env c ctx s k :
  (0 < RetryInterval (HTTPClient.RetryConfig c))%Z ->
  1 <= k -> (Z.of_nat k <= MaxRetryTimes (HTTPClient.RetryConfig c))%Z ->
  (forall j, j < k - 1 -> context.Done ctx (waits s + j) = false) ->
  context.Done ctx (waits s + (k - 1)) = true ->
  ((forall j, j < k ->
      failed (Lenient.attempt_result env c (heap_req s) (attempts s + j))) ->
   let out := Lenient.DoHttpRequest env c ctx s in
   attempts out.2 = attempts s + k
   /\ waits out.2 = waits s + k
   /\ (exists e,
        Lenient.attempt_result env c (heap_req s) (attempts s + (k - 1)) = inr e
        /\ out.1 = (None, Some e))
   /\ exists new,
        events out.2 = events s ++ new ++ [EvDone (waits s + (k - 1))]
        /\ forall d, EvTimer (waits s + (k - 1)) d ∉ new)
  /\ ((forall j, j < k ->
      failed (Strict.attempt_result env c ctx (heap_req s) (attempts s + j))) ->
   let out := Strict.DoHttpRequest env c ctx s in
   attempts out.2 = attempts s + k
   /\ waits out.2 = waits s + k
   /\ (exists e,
        Strict.attempt_result env c ctx (heap_req s) (attempts s + (k - 1)) = inr e
        /\ out.1 = (None, Some e))
   /\ exists new,
        events out.2 = events s ++ new ++ [EvDone (waits s + (k - 1))]
        /\ forall d, EvTimer (waits s + (k - 1)) d ∉ new).
Proof.
  intros Hi Hk HkN Htimer Hdone. split; intros Hfail; cbv zeta.
  - pose proof (Hfail (k - 1) ltac:(lia)) as Hlast.
    destruct (Lenient.attempt_result env c (heap_req s) (attempts s + (k - 1)))
      as [| e] eqn:He; [destruct Hlast |].
    destruct (run_cancelled_unblocked env c trace.zero _ _ ctx s k e
                (Lenient_doHttpRequest_like env c)
                (Lenient_doHttpRequest_logs env c) Hi Hk HkN)
      as (H1 & H2 & H3 & H4); auto.
    { intros j Hj. apply Hfail. lia. }
    unfold Lenient.DoHttpRequest.
    split; [exact H1 |]. split; [exact H2 |]. split; [| exact H4].
    exists e. split; [reflexivity | exact H3].
  - pose proof (Hfail (k - 1) ltac:(lia)) as Hlast.
    destruct (Strict.attempt_result env c ctx (heap_req s) (attempts s + (k - 1)))
      as [| e] eqn:He; [destruct Hlast |].
    destruct (run_cancelled_unblocked env c (trace_of ctx) _ _ ctx s k e
                (Strict_doHttpRequest_like env c ctx)
                (Strict_doHttpRequest_logs env c ctx) Hi Hk HkN)
      as (H1 & H2 & H3 & H4); auto.
    { intros j Hj. apply Hfail. lia. }
    unfold Strict.DoHttpRequest.
    split; [exact H1 |]. split; [exact H2 |]. split; [| exact H4].
    exists e. split; [reflexivity | exact H3].
Qed.

Lemma cancellation_unblocks_the_wait_witness :
  let e := Fixture.env Fixture.numbered_refusals in
  let c := Fixture.client 5%Z (10 * Second)%Z in
  let ctx := Fixture.cancelled_in_wait 1 in
  let out := Lenient.DoHttpRequest e c ctx (Fixture.start e) in
  attempts out.2 = 0 + 2
  /\ waits out.2 = 0 + 2
  /\ (exists err,
       Lenient.attempt_result e c (Fixture.request e) (0 + (2 - 1)) = inr err
       /\ out.1 = (None, Some err))
  /\ exists new,
       events out.2 = [] ++ new ++ [EvDone (0 + (2 - 1))]
       /\ forall d, EvTimer (0 + (2 - 1)) d ∉ new.
Proof.
  intros e c ctx.
  refine (proj1 (cancellation_unblocks_the_wait e c ctx (Fixture.start e) 2
                   _ _ _ _ _) _).
  - reflexivity.
  - repeat constructor.
  - discriminate.
  - intros [| j] Hj; [reflexivity | inversion Hj as [| ? Hj']; inversion Hj'].
  - reflexivity.
  - intros j Hj. exact I.
Defined.

(** * The request across a call *)

(** C9: [DoHttpRequest] of [src/httpclient/httpclient.go] leaves the
    [PushRequest] it is given as it was (all four fields), on every way out.
    For a request whose method and URL [http.NewRequest] accepts, every
    attempt of the call builds the same wire request anew from it and hands it
    to the transport: the requests sent are exactly one per attempt, each
    the option list applied to a fresh request; with [MaxRetryTimes >= 1] at
    least one is sent; and with options that leave the body alone each of
    them carries the body of the [PushRequest]. *)
Theorem request_unchanged_rebuilt_each_attempt env c ctx s :
  let r := heap_req s in
  let out := Lenient.DoHttpRequest env c ctx s in
  heap_req out.2 = r
  /\ forall req0,
       http_NewRequest env (PushRequest.Method r) (PushRequest.URL r)
         (PushRequest.Body r) = inl req0 ->
       let q := fold_left (fun req opt => opt req) (PushRequest.Header r) req0 in
       buildHTTPRequest env (heap_req out.2) = inl q
       /\ (exists new,
            events out.2 = events s ++ new
            /\ (forall n q', EvDo n q' ∈ new ->
                  attempts s <= n < attempts out.2 /\ q' = q)
            /\ (forall n, attempts s <= n < attempts out.2 -> EvDo n q ∈ new))
       /\ ((1 <= MaxRetryTimes (HTTPClient.RetryConfig c))%Z ->
           attempts s < attempts out.2)
       /\ ((forall opt x, opt ∈ PushRequest.Header r ->
              http.reqBody (opt x) = http.reqBody x) ->
           http.reqBody q = PushRequest.Body r).
Proof.
  cbv zeta.
  assert (Hinv : rebuilt_since env s (Lenient.DoHttpRequest env c ctx s).2).
  { unfold Lenient.DoHttpRequest.
    apply (DoHttpRequest_for_invariant (rebuilt_since env s)).
    - intros s1. apply rebuilt_since_doHttpRequest.
    - intros s1. apply rebuilt_since_pendingForRetry.
    - apply rebuilt_since_refl. }
  destruct Hinv as (Hh & _ & new & Hev & Hsent & Hall).
  split; [exact Hh |]. intros req0 Hnew.
  assert (Hbuild : buildHTTPRequest env (heap_req s) =
    inl (fold_left (fun req opt => opt req)
           (PushRequest.Header (heap_req s)) req0)).
  { unfold buildHTTPRequest. rewrite Hnew. reflexivity. }
  split; [rewrite Hh; exact Hbuild |]. split; [| split].
  - exists new. split; [exact Hev |]. split.
    + intros n q' Hin. destruct (Hsent n q' Hin) as (Hn & Hq).
      split; [exact Hn |]. rewrite Hbuild in Hq. inversion Hq. reflexivity.
    + intros n Hn. apply Hall; [exact Hn | exact Hbuild].
  - intros HN.
    pose proof (run_at_least_one _ _ (Lenient_doHttpRequest_like env c) c ctx s HN)
      as Hone.
    unfold Lenient.DoHttpRequest. exact Hone.
  - intros Hopts. rewrite options_keep_body by exact Hopts.
    destruct (http_NewRequest_fresh _ _ _ _ _ Hnew) as (_ & Hb & _). exact Hb.
Qed.

(** Two attempts, both refused: the same wire request, carrying the body
    of the [PushRequest], is built and sent twice, and the [PushRequest] is
    as it was. *)
Lemma request_unchanged_rebuilt_each_attempt_witness :
  let e := Fixture.env Fixture.numbered_refusals in
  let c := Fixture.client 2%Z 5%Z in
  let s := Fixture.start e in
  let out := Lenient.DoHttpRequest e c Fixture.never_cancelled s in
  let q :=
    fold_left (fun req opt => opt req) (PushRequest.Header (Fixture.request e))
      {| http.reqMethod := "POST";
         http.reqURL := {| url.Scheme := "https";
                           url.Host := "push-api.cloud.huawei.com";
                           url.Path := "" |};
         http.reqHeader := ∅;
         http.reqBody := Some [x7b; x7d] |} in
  heap_req out.2 = Fixture.request e
  /\ buildHTTPRequest e (heap_req out.2) = inl q
  /\ (exists new,
       events out.2 = [] ++ new
       /\ (forall n q', EvDo n q' ∈ new -> 0 <= n < attempts out.2 /\ q' = q)
       /\ (forall n, 0 <= n < attempts out.2 -> EvDo n q ∈ new))
  /\ 0 < attempts out.2
  /\ http.reqBody q = Some [x7b; x7d].
Proof.
  intros e c s out q.
  destruct (request_unchanged_rebuilt_each_attempt e c Fixture.never_cancelled s)
    as (Hframe & Hbuilt).
  destruct (Hbuilt
              {| http.reqMethod := "POST";
                 http.reqURL := {| url.Scheme := "https";
                                   url.Host := "push-api.cloud.huawei.com";
                                   url.Path := "" |};
                 http.reqHeader := ∅;
                 http.reqBody := Some [x7b; x7d] |} eq_refl)
    as (Hq & Hlog & Hone & Hbody).
  split; [exact Hframe |]. split; [exact Hq |]. split; [exact Hlog |].
  split; [apply Hone; discriminate |].
  apply Hbody. intros opt x Hin.
  apply elem_of_cons in Hin as [-> | Hin]; [reflexivity |].
  apply list_elem_of_singleton in Hin. subst. reflexivity.
Defined.
